(** * deploy_ec2_with_github.py: a shallow embedding and its properties

    The script provisions a GitHub repository, an EC2 key pair, a security
    group and a fleet of EC2 instances.  Every interesting step is a call
    into a collaborator (the [requests] library, the boto3 client and
    resource, the local file system).  The embedding therefore threads an
    explicit state (the journal of collaborator calls, standard output and
    the file system) through an exception monad, and takes the answers of
    the collaborators from a [World]: one oracle per call, which sees the
    whole journal so far, so that an answer may depend on everything that
    happened before. *)

From Stdlib Require Import ZArith String Ascii List Bool Lia DecimalString.
From Stdlib Require Import Sorted Permutation.
From stdpp Require Import base gmap strings list.

Open Scope string_scope.
Open Scope list_scope.
Open Scope Z_scope.

(** ** Python values used by the script *)

(** Python's [needle in hay] on [str]. *)
Fixpoint str_in (needle hay : string) : bool :=
  if String.prefix needle hay then true
  else match hay with
       | EmptyString => false
       | String _ rest => str_in needle rest
       end.

(** [f"{n}"] for an [int]. *)
Definition str_of_int (n : Z) : string := NilZero.string_of_int (Z.to_int n).

(** [f"{v}"] for a value that is a [str] or [None]. *)
Definition str_of_opt (v : option string) : string :=
  match v with
  | Some s => s
  | None => "None"
  end.

(** Truth value of a [str]-or-[None]: [None] and the empty string are falsy. *)
Definition truthy (v : option string) : bool :=
  match v with
  | Some s => negb (String.eqb s "")
  | None => false
  end.

(** The exceptions that reach the script.  [ClientError] is botocore's; its
    argument is [str(e)].  [OtherError] stands for any further subclass of
    [Exception] that a library raises (a connection error of [requests], a
    [WaiterError], an [OSError], ...).  [KeyboardInterrupt] derives from
    [BaseException] only. *)
Inductive exn : Type :=
| ValueError (msg : string)
| IndexError (msg : string)
| KeyError (key : string)
| ClientError (msg : string)
| Exception (msg : string)
| OtherError (cls msg : string)
| KeyboardInterrupt.

(** [str(e)] *)
Definition str_of_exn (e : exn) : string :=
  match e with
  | ValueError msg | IndexError msg | ClientError msg | Exception msg => msg
  | KeyError key => "'" +:+ key +:+ "'"
  | OtherError _ msg => msg
  | KeyboardInterrupt => ""
  end.

(** [isinstance(e, ClientError)], the test of [except ClientError]. *)
Definition is_ClientError (e : exn) : bool :=
  match e with
  | ClientError _ => true
  | _ => false
  end.

(** [isinstance(e, Exception)], the test of [except Exception]. *)
Definition is_Exception (e : exn) : bool :=
  match e with
  | KeyboardInterrupt => false
  | _ => true
  end.

Inductive result (A : Type) : Type :=
| Ok (a : A)
| Raise (e : exn).
Arguments Ok {A} a.
Arguments Raise {A} e.

(** [l[0]] on a list. *)
Definition index0 {A : Type} (l : list A) : result A :=
  match l with
  | x :: _ => Ok x
  | [] => Raise (IndexError "list index out of range")
  end.

(** [d[k]] on a dict with [str] keys, kept as an association list. *)
Fixpoint dict_get {A : Type} (d : list (string * A)) (k : string) : result A :=
  match d with
  | [] => Raise (KeyError k)
  | (k', v) :: rest => if String.eqb k' k then Ok v else dict_get rest k
  end.

(** [sorted(l, key=key, reverse=reverse)] for [str] keys.  Python's sort is
    stable, also under [reverse=True]: elements with equal keys keep the
    order of the input.  Stable insertion computes the same list. *)
Section Sorted.
Context {A : Type} (key : A -> string).

Definition goes_before (reverse : bool) (x y : A) : bool :=
  if reverse then String.leb (key y) (key x) else String.leb (key x) (key y).

Fixpoint insert_sorted (reverse : bool) (x : A) (l : list A) : list A :=
  match l with
  | [] => [x]
  | y :: rest =>
      if goes_before reverse x y then x :: y :: rest
      else y :: insert_sorted reverse x rest
  end.

Fixpoint sorted (reverse : bool) (l : list A) : list A :=
  match l with
  | [] => []
  | x :: rest => insert_sorted reverse x (sorted reverse rest)
  end.
End Sorted.

(** ** Configuration: the module-level constants read from the environment

    [os.getenv] without a default gives [None] for an unset variable, hence
    the two optional fields; [INSTANCE_COUNT] is the integer that
    [int(os.getenv("INSTANCE_COUNT", "50"))] produced. *)

Record Config : Type := {
  AWS_REGION : string;
  INSTANCE_TYPE : string;
  INSTANCE_COUNT : Z;
  KEY_PAIR_NAME : string;
  SECURITY_GROUP_NAME : string;
  GITHUB_TOKEN : option string;
  GITHUB_USERNAME : option string;
  GITHUB_REPO_NAME : string;
  AMI_NAME_FILTER : string
}.

(** ** Requests and responses of the collaborators

    The shapes are the ones the script reads and writes; a response dict is
    a record of the keys the script looks at. *)

Inductive json_value : Type :=
| JStr (s : string)
| JBool (b : bool).

Record Response : Type := {
  status_code : Z;
  text : string;
  json : result (list (string * string))   (* resp.json() *)
}.

Record Filter : Type := { Name : string; Values : list string }.
Record Vpc : Type := { VpcId : string }.
Record IpRange : Type := { CidrIp : string }.
Record IpPermission : Type := {
  IpProtocol : string;
  FromPort : Z;
  ToPort : Z;
  IpRanges : list IpRange
}.
Record SecurityGroup : Type := {
  GroupId : string;
  IpPermissions : list IpPermission
}.
(** The response of [create_security_group]. *)
Record CreatedGroup : Type := { new_GroupId : string }.
Record Image : Type := { ImageId : string; CreationDate : string }.
Record KeyPair : Type := { KeyMaterial : string }.
Record Tag : Type := { Key : string; Value : string }.
Record TagSpecification : Type := { ResourceType : string; Tags : list Tag }.

(** The keyword arguments of [ec2_resource.create_instances]. *)
Record RunInstances : Type := {
  run_ImageId : string;
  MinCount : Z;
  MaxCount : Z;
  InstanceType : string;
  KeyName : string;
  SecurityGroupIds : list string;
  UserData : string;
  TagSpecifications : list TagSpecification
}.

(** A boto3 [Instance] resource: its identifier and the attributes it
    caches; [reload()] replaces the cache by the provider's current view. *)
Record Instance : Type := {
  instance_id : string;
  public_ip_address : option string
}.

Record File : Type := { content : string; mode : Z }.

(** ** The journal of collaborator calls *)

Inductive event : Type :=
| EvPost (url : string) (headers : list (string * string))
    (data : list (string * json_value)) (r : result Response)
| EvDescribeVpcs (filters : list Filter) (r : result (list Vpc))
| EvCreateSecurityGroup (name description vpc_id : string) (r : result CreatedGroup)
| EvAuthorizeIngress (group_id : string) (perms : list IpPermission) (r : result unit)
| EvDescribeSecurityGroups (names : list string) (r : result (list SecurityGroup))
| EvDescribeImages (owners : list string) (filters : list Filter) (r : result (list Image))
| EvCreateKeyPair (name : string) (r : result KeyPair)
| EvCreateInstances (req : RunInstances) (r : result (list Instance))
| EvWaitUntilRunning (id : string) (r : result unit)
| EvReload (id : string) (r : result (option string))
| EvOpenWrite (path : string) (r : result unit)
| EvWrite (path data : string) (r : result unit)
| EvChmod (path : string) (perm : Z) (r : result unit).

(** The collaborators.  Each oracle receives the journal so far. *)
Record World : Type := {
  requests_post : list event -> string -> list (string * string) ->
                  list (string * json_value) -> result Response;
  describe_vpcs : list event -> list Filter -> result (list Vpc);
  ec2_create_security_group : list event -> string -> string -> string ->
                              result CreatedGroup;
  authorize_security_group_ingress : list event -> string -> list IpPermission ->
                                     result unit;
  describe_security_groups : list event -> list string -> result (list SecurityGroup);
  describe_images : list event -> list string -> list Filter -> result (list Image);
  ec2_create_key_pair : list event -> string -> result KeyPair;
  create_instances : list event -> RunInstances -> result (list Instance);
  wait_until_running : list event -> string -> result unit;
  reload : list event -> string -> result (option string);
  os_open_write : list event -> string -> result unit;
  os_write : list event -> string -> string -> result unit;
  os_chmod : list event -> string -> Z -> result unit;
  umask : Z
}.

(** ** The state the script acts on, and its monad *)

Record state : Type := {
  trace : list event;
  stdout : list string;           (* one entry per [print] call *)
  fs : gmap string File
}.

Definition M (A : Type) : Type := state -> result A * state.

Definition ret {A : Type} (a : A) : M A := fun st => (Ok a, st).

Definition raise {A : Type} (e : exn) : M A := fun st => (Raise e, st).

Definition bind {A B : Type} (m : M A) (k : A -> M B) : M B :=
  fun st =>
    match m st with
    | (Ok a, st') => k a st'
    | (Raise e, st') => (Raise e, st')
    end.

(** [try: body  except <class> as e: handler e] *)
Definition try_except {A : Type} (body : M A) (handles : exn -> bool)
    (handler : exn -> M A) : M A :=
  fun st =>
    match body st with
    | (Ok a, st') => (Ok a, st')
    | (Raise e, st') => if handles e then handler e st' else (Raise e, st')
    end.

Definition lift {A : Type} (r : result A) : M A := fun st => (r, st).

Declare Scope py_scope.
Delimit Scope py_scope with py.
Notation "x <- m ;; k" := (bind m (fun x => k))
  (at level 100, m at next level, right associativity) : py_scope.
Notation "m ;; k" := (bind m (fun _ => k))
  (at level 100, right associativity) : py_scope.
Open Scope py_scope.

Definition print (line : string) : M unit :=
  fun st => (Ok tt, {| trace := trace st; stdout := stdout st ++ [line]; fs := fs st |}).

(** A collaborator call: ask the oracle with the journal so far, record the
    call and its outcome. *)
Definition call {A : Type} (ask : list event -> result A)
    (ev : result A -> event) : M A :=
  fun st =>
    let r := ask (trace st) in
    (r, {| trace := trace st ++ [ev r]; stdout := stdout st; fs := fs st |}).

Definition set_fs (f : gmap string File -> gmap string File) : M unit :=
  fun st => (Ok tt, {| trace := trace st; stdout := stdout st; fs := f (fs st) |}).

(** [for x in l: body x] *)
Fixpoint for_each {A : Type} (l : list A) (body : A -> M unit) : M unit :=
  match l with
  | [] => ret tt
  | x :: rest => body x ;; for_each rest body
  end.

(** [[f x for x in l]] with an effectful [f]. *)
Fixpoint comprehension {A B : Type} (l : list A) (f : A -> M B) : M (list B) :=
  match l with
  | [] => ret []
  | x :: rest => y <- f x ;; ys <- comprehension rest f ;; ret (y :: ys)
  end.

(** ** The script *)

Section Script.
Variable cfg : Config.
Variable w : World.

(** File system: [open(path, "w")] creates the file with mode
    [0o666 & ~umask] (438 is 0o666) or truncates it; [f.write] adds to the
    content; [os.chmod] sets the mode.  Whether the operating system lets
    the call through is the world's answer. *)
Definition open_write (path : string) : M unit :=
  call (fun h => os_open_write w h path) (EvOpenWrite path) ;;
  set_fs (fun m =>
    match m !! path with
    | Some f => <[path := {| content := ""; mode := mode f |}]> m
    | None => <[path := {| content := "";
                           mode := Z.land 438 (Z.lnot (umask w)) |}]> m
    end).

Definition file_write (path data : string) : M unit :=
  call (fun h => os_write w h path data) (EvWrite path data) ;;
  set_fs (fun m =>
    match m !! path with
    | Some f => <[path := {| content := content f +:+ data; mode := mode f |}]> m
    | None => m
    end).

Definition chmod (path : string) (perm : Z) : M unit :=
  call (fun h => os_chmod w h path perm) (EvChmod path perm) ;;
  set_fs (fun m =>
    match m !! path with
    | Some f => <[path := {| content := content f; mode := perm |}]> m
    | None => m
    end).

Definition repo_headers : list (string * string) :=
  [("Authorization", "token " +:+ str_of_opt (GITHUB_TOKEN cfg));
   ("Accept", "application/vnd.github.v3+json")].

(** The dict handed to [json.dumps]; its serialisation is not modelled. *)
Definition repo_data : list (string * json_value) :=
  [("name", JStr (GITHUB_REPO_NAME cfg));
   ("description",
    JStr "Automatically created by Python script to deploy 50 AWS EC2 instances");
   ("private", JBool false)].

Definition repos_url : string := "https://api.github.com/user/repos".

Definition create_github_repo : M string :=
  if negb (truthy (GITHUB_TOKEN cfg)) || negb (truthy (GITHUB_USERNAME cfg)) then
    raise (ValueError "Missing GITHUB_TOKEN or GITHUB_USERNAME environment variables.")
  else
    print ("📦 Creating GitHub repository '" +:+ GITHUB_REPO_NAME cfg +:+ "'...") ;;
    resp <- call (fun h => requests_post w h repos_url repo_headers repo_data)
                 (EvPost repos_url repo_headers repo_data) ;;
    if (status_code resp =? 201) || (status_code resp =? 202) then
      print ("✅ Repository created: https://github.com/"
             +:+ str_of_opt (GITHUB_USERNAME cfg) +:+ "/" +:+ GITHUB_REPO_NAME cfg) ;;
      body <- lift (json resp) ;;
      lift (dict_get body "html_url")
    else if status_code resp =? 422 then
      print "⚠️ Repository already exists — skipping creation." ;;
      ret ("https://github.com/"
           +:+ str_of_opt (GITHUB_USERNAME cfg) +:+ "/" +:+ GITHUB_REPO_NAME cfg)
    else
      raise (Exception ("GitHub API error: " +:+ str_of_int (status_code resp)
                        +:+ " - " +:+ text resp)).

Definition vpc_filters : list Filter :=
  [{| Name := "isDefault"; Values := ["true"] |}].

Definition get_default_vpc_id : M string :=
  vpcs <- call (fun h => describe_vpcs w h vpc_filters) (EvDescribeVpcs vpc_filters) ;;
  vpc <- lift (index0 vpcs) ;;
  ret (VpcId vpc).

Definition ingress_rules : list IpPermission :=
  [{| IpProtocol := "tcp"; FromPort := 22; ToPort := 22;
      IpRanges := [{| CidrIp := "0.0.0.0/0" |}] |};
   {| IpProtocol := "tcp"; FromPort := 80; ToPort := 80;
      IpRanges := [{| CidrIp := "0.0.0.0/0" |}] |}].

Definition group_description : string := "Allow SSH and HTTP inbound".

Definition create_security_group (vpc_id : string) : M string :=
  try_except
    (response <- call (fun h => ec2_create_security_group w h
                                  (SECURITY_GROUP_NAME cfg) group_description vpc_id)
                      (EvCreateSecurityGroup (SECURITY_GROUP_NAME cfg)
                         group_description vpc_id) ;;
     let sg_id := new_GroupId response in
     print ("✅ Security group created: " +:+ sg_id) ;;
     call (fun h => authorize_security_group_ingress w h sg_id ingress_rules)
          (EvAuthorizeIngress sg_id ingress_rules) ;;
     ret sg_id)
    is_ClientError
    (fun e =>
       if str_in "InvalidGroup.Duplicate" (str_of_exn e) then
         print "⚠️ Security group already exists — reusing it." ;;
         sgs <- call (fun h => describe_security_groups w h [SECURITY_GROUP_NAME cfg])
                     (EvDescribeSecurityGroups [SECURITY_GROUP_NAME cfg]) ;;
         sg <- lift (index0 sgs) ;;
         ret (GroupId sg)
       else
         raise e).

Definition image_filters : list Filter :=
  [{| Name := "name"; Values := [AMI_NAME_FILTER cfg] |}].

Definition get_latest_ami : M string :=
  images <- call (fun h => describe_images w h ["amazon"] image_filters)
                 (EvDescribeImages ["amazon"] image_filters) ;;
  let sorted_images := sorted CreationDate true images in
  image <- lift (index0 sorted_images) ;;
  ret (ImageId image).

Definition create_key_pair : M unit :=
  try_except
    (key_pair <- call (fun h => ec2_create_key_pair w h (KEY_PAIR_NAME cfg))
                      (EvCreateKeyPair (KEY_PAIR_NAME cfg)) ;;
     let private_key := KeyMaterial key_pair in
     let key_path := KEY_PAIR_NAME cfg +:+ ".pem" in
     open_write key_path ;;
     file_write key_path private_key ;;
     chmod key_path 256 ;;                                   (* 0o400 *)
     print ("✅ Created and saved new key pair at " +:+ key_path))
    is_ClientError
    (fun e =>
       if str_in "InvalidKeyPair.Duplicate" (str_of_exn e) then
         print "⚠️ Key pair already exists — reusing it."
       else
         raise e).

Definition user_data : string :=
"#!/bin/bash
                    yum update -y
                    yum install -y httpd
                    systemctl enable httpd
                    systemctl start httpd
                    echo 'Hello from EC2 Python deployer!' > /var/www/html/index.html
                 ".

Definition run_request (ami_id sg_id : string) : RunInstances :=
  {| run_ImageId := ami_id;
     MinCount := INSTANCE_COUNT cfg;
     MaxCount := INSTANCE_COUNT cfg;
     InstanceType := INSTANCE_TYPE cfg;
     KeyName := KEY_PAIR_NAME cfg;
     SecurityGroupIds := [sg_id];
     UserData := user_data;
     TagSpecifications :=
       [{| ResourceType := "instance";
           Tags := [{| Key := "Name"; Value := "PythonDeployedEC2" |}] |}] |}.

(** [instance.wait_until_running()] *)
Definition instance_wait_until_running (i : Instance) : M unit :=
  call (fun h => wait_until_running w h (instance_id i))
       (EvWaitUntilRunning (instance_id i)).

(** [i.reload() or i]: [reload] refreshes the attributes the object caches
    and returns [None], so the expression is the refreshed object. *)
Definition instance_reload (i : Instance) : M Instance :=
  ip <- call (fun h => reload w h (instance_id i)) (EvReload (instance_id i)) ;;
  ret {| instance_id := instance_id i; public_ip_address := ip |}.

Definition launch_instances (ami_id sg_id : string) : M (list (option string)) :=
  print ("🚀 Launching " +:+ str_of_int (INSTANCE_COUNT cfg)
         +:+ " EC2 instances of type " +:+ INSTANCE_TYPE cfg +:+ "...") ;;
  instances <- call (fun h => create_instances w h (run_request ami_id sg_id))
                    (EvCreateInstances (run_request ami_id sg_id)) ;;
  print "⏳ Waiting for instances to be running..." ;;
  for_each instances instance_wait_until_running ;;
  instances <- comprehension instances instance_reload ;;
  let public_ips := map public_ip_address instances in
  print "✅ EC2 instances launched successfully:" ;;
  for_each public_ips (fun ip => print ("   → " +:+ str_of_opt ip)) ;;
  ret public_ips.

Definition newline : string := String (ascii_of_nat 10) "".

Definition main : M unit :=
  print "🌍 Starting deployment..." ;;
  repo_url <- create_github_repo ;;
  create_key_pair ;;
  vpc_id <- get_default_vpc_id ;;
  sg_id <- create_security_group vpc_id ;;
  ami_id <- get_latest_ami ;;
  ips <- launch_instances ami_id sg_id ;;
  print (newline +:+ "🎯 Deployment Summary:") ;;
  print ("GitHub Repo: " +:+ repo_url) ;;
  print ("Instance Count: " +:+ str_of_int (INSTANCE_COUNT cfg)) ;;
  print "Public IPs:" ;;
  for_each ips (fun ip => print ("  - " +:+ str_of_opt ip)) ;;
  print (newline +:+ "🧹 To clean up later, run:") ;;
  print "  aws ec2 describe-instances --filters Name=tag:Name,Values=PythonDeployedEC2" ;;
  print "  aws ec2 terminate-instances --instance-ids <ids>".

(** The [if __name__ == "__main__"] block. *)
Definition dunder_main : M unit :=
  try_except main is_Exception
    (fun e => print ("❌ Error: " +:+ str_of_exn e)).

End Script.

(** How the interpreter ends: the script ran to its end (status 0), or an
    exception left it (traceback and a failure status; 1 stands for it). *)
Inductive outcome : Type :=
| Completed
| Uncaught (e : exn).

Definition run_script (cfg : Config) (w : World) (st : state) : outcome * state :=
  match dunder_main cfg w st with
  | (Ok _, st') => (Completed, st')
  | (Raise e, st') => (Uncaught e, st')
  end.

Definition exit_status (o : outcome) : Z :=
  match o with
  | Completed => 0
  | Uncaught _ => 1
  end.

(** ** Reading the journal *)

(** The calls journalled between two states of one run. *)
Definition events_since (st st' : state) : list event :=
  drop (length (trace st)) (trace st').

(** The batch-creation calls of a journal, as (MinCount, MaxCount). *)
Definition create_calls (evs : list event) : list (Z * Z) :=
  flat_map (fun ev =>
              match ev with
              | EvCreateInstances req _ => [(MinCount req, MaxCount req)]
              | _ => []
              end) evs.

(** The ingress-authorisation calls of a journal. *)
Definition ingress_calls (evs : list event) : list string :=
  flat_map (fun ev =>
              match ev with
              | EvAuthorizeIngress group_id _ _ => [group_id]
              | _ => []
              end) evs.

(** [emits P m]: a run of [m] only appends to the journal, and every call it
    appends satisfies [P]. *)
Definition emits {A : Type} (P : event -> Prop) (m : M A) : Prop :=
  forall st, exists evs, trace (snd (m st)) = trace st ++ evs /\ Forall P evs.

(** The batch-creation calls among the events. *)
Definition is_create_event (ev : event) : bool :=
  match ev with
  | EvCreateInstances _ _ => true
  | _ => false
  end.

(** The state after further calls, and after further printed lines. *)
Definition journalled (st : state) (evs : list event) : state :=
  {| trace := trace st ++ evs; stdout := stdout st; fs := fs st |}.

Definition printed (st : state) (lines : list string) : state :=
  {| trace := trace st; stdout := stdout st ++ lines; fs := fs st |}.

Definition wait_events (instances : list Instance) : list event :=
  map (fun i => EvWaitUntilRunning (instance_id i) (Ok tt)) instances.

Definition reload_events (instances : list Instance) (ips : list (option string)) :
    list event :=
  zip_with (fun i ip => EvReload (instance_id i) (Ok ip)) instances ips.

(** The stages of [main], in the order in which it runs them. *)
Inductive Stage : Type :=
| RepositoryStage
| KeyPairStage
| NetworkStage
| SecurityGroupStage
| ImageStage
| FleetStage.

Definition stage_index (s : Stage) : nat :=
  match s with
  | RepositoryStage => 0
  | KeyPairStage => 1
  | NetworkStage => 2
  | SecurityGroupStage => 3
  | ImageStage => 4
  | FleetStage => 5
  end.

(** The stage whose function makes a call. *)
Definition stage_of (ev : event) : Stage :=
  match ev with
  | EvPost _ _ _ _ => RepositoryStage
  | EvCreateKeyPair _ _ | EvOpenWrite _ _ | EvWrite _ _ _ | EvChmod _ _ _ => KeyPairStage
  | EvDescribeVpcs _ _ => NetworkStage
  | EvCreateSecurityGroup _ _ _ _ | EvAuthorizeIngress _ _ _
  | EvDescribeSecurityGroups _ _ => SecurityGroupStage
  | EvDescribeImages _ _ _ => ImageStage
  | EvCreateInstances _ _ | EvWaitUntilRunning _ _ | EvReload _ _ => FleetStage
  end.

(** The state in which [main] enters its first stage. *)
Definition started (st : state) : state := printed st ["🌍 Starting deployment..."].

(** [first_failure cfg w st e st' s]: in the run of [main] from [st], the
    stages before [s] return and stage [s] raises [e], leaving [st']. *)
Inductive first_failure (cfg : Config) (w : World) (st : state) (e : exn) (st' : state) :
    Stage -> Prop :=
| repository_fails :
    create_github_repo cfg w (started st) = (Raise e, st') ->
    first_failure cfg w st e st' RepositoryStage
| key_material_fails (repo_url : string) (s1 : state) :
    create_github_repo cfg w (started st) = (Ok repo_url, s1) ->
    create_key_pair cfg w s1 = (Raise e, st') ->
    first_failure cfg w st e st' KeyPairStage
| network_fails (repo_url : string) (s1 s2 : state) :
    create_github_repo cfg w (started st) = (Ok repo_url, s1) ->
    create_key_pair cfg w s1 = (Ok tt, s2) ->
    get_default_vpc_id w s2 = (Raise e, st') ->
    first_failure cfg w st e st' NetworkStage
| firewall_fails (repo_url vpc_id : string) (s1 s2 s3 : state) :
    create_github_repo cfg w (started st) = (Ok repo_url, s1) ->
    create_key_pair cfg w s1 = (Ok tt, s2) ->
    get_default_vpc_id w s2 = (Ok vpc_id, s3) ->
    create_security_group cfg w vpc_id s3 = (Raise e, st') ->
    first_failure cfg w st e st' SecurityGroupStage
| image_lookup_fails (repo_url vpc_id sg_id : string) (s1 s2 s3 s4 : state) :
    create_github_repo cfg w (started st) = (Ok repo_url, s1) ->
    create_key_pair cfg w s1 = (Ok tt, s2) ->
    get_default_vpc_id w s2 = (Ok vpc_id, s3) ->
    create_security_group cfg w vpc_id s3 = (Ok sg_id, s4) ->
    get_latest_ami cfg w s4 = (Raise e, st') ->
    first_failure cfg w st e st' ImageStage
| fleet_fails (repo_url vpc_id sg_id ami_id : string) (s1 s2 s3 s4 s5 : state) :
    create_github_repo cfg w (started st) = (Ok repo_url, s1) ->
    create_key_pair cfg w s1 = (Ok tt, s2) ->
    get_default_vpc_id w s2 = (Ok vpc_id, s3) ->
    create_security_group cfg w vpc_id s3 = (Ok sg_id, s4) ->
    get_latest_ami cfg w s4 = (Ok ami_id, s5) ->
    launch_instances cfg w ami_id sg_id s5 = (Raise e, st') ->
    first_failure cfg w st e st' FleetStage.

(** The journal grew from [st] to [st'] by calls of the stages up to the
    [bound]-th. *)
Definition within (bound : nat) (st st' : state) : Prop :=
  exists evs,
    trace st' = trace st ++ evs
    /\ Forall (fun ev => (stage_index (stage_of ev) <= bound)%nat) evs.



(** ** Sample worlds, for running the script on concrete inputs *)

Definition sample_config (token owner : option string) (count : Z) : Config :=
  {| AWS_REGION := "us-east-1";
     INSTANCE_TYPE := "t3.micro";
     INSTANCE_COUNT := count;
     KEY_PAIR_NAME := "deployer-key";
     SECURITY_GROUP_NAME := "allow_ssh_http";
     GITHUB_TOKEN := token;
     GITHUB_USERNAME := owner;
     GITHUB_REPO_NAME := "aws-ec2-50";
     AMI_NAME_FILTER := "amzn2-ami-kernel-5.10-hvm-*-x86_64-gp2" |}.

(** A world whose answers do not depend on the journal. *)
Definition sample_world
    (post : result Response) (vpcs : result (list Vpc))
    (created : result CreatedGroup) (authorized : result unit)
    (groups : result (list SecurityGroup)) (images : result (list Image))
    (key : result KeyPair) (fleet : result (list Instance))
    (ip_of : string -> result (option string)) : World :=
  {| requests_post := fun _ _ _ _ => post;
     describe_vpcs := fun _ _ => vpcs;
     ec2_create_security_group := fun _ _ _ _ => created;
     authorize_security_group_ingress := fun _ _ _ => authorized;
     describe_security_groups := fun _ _ => groups;
     describe_images := fun _ _ _ => images;
     ec2_create_key_pair := fun _ _ => key;
     create_instances := fun _ _ => fleet;
     wait_until_running := fun _ _ => Ok tt;
     reload := fun _ id => ip_of id;
     os_open_write := fun _ _ => Ok tt;
     os_write := fun _ _ _ => Ok tt;
     os_chmod := fun _ _ _ => Ok tt;
     umask := 18 |}.

Definition fresh : state := {| trace := []; stdout := []; fs := ∅ |}.

Definition created_response : Response :=
  {| status_code := 201; text := "";
     json := Ok [("html_url", "https://github.com/octo/aws-ec2-50")] |}.

Definition conflict_response : Response :=
  {| status_code := 422; text := "name already exists on this account";
     json := Ok [] |}.

Definition three_instances : list Instance :=
  [{| instance_id := "i-01"; public_ip_address := None |};
   {| instance_id := "i-02"; public_ip_address := None |};
   {| instance_id := "i-03"; public_ip_address := None |}].

Definition three_ips (id : string) : result (option string) :=
  if String.eqb id "i-01" then Ok (Some "1.2.3.4")
  else if String.eqb id "i-02" then Ok (Some "5.6.7.8")
  else Ok None.

Definition three_images : list Image :=
  [{| ImageId := "ami-jan"; CreationDate := "2024-01-01" |};
   {| ImageId := "ami-jun"; CreationDate := "2024-06-01" |};
   {| ImageId := "ami-dec"; CreationDate := "2023-12-01" |}].

(** Everything succeeds: three instances, the third without a public IP. *)
Definition happy_world : World :=
  sample_world (Ok created_response) (Ok [{| VpcId := "vpc-1" |}])
    (Ok {| new_GroupId := "sg-new" |}) (Ok tt)
    (Ok [{| GroupId := "sg-old"; IpPermissions := [] |}])
    (Ok three_images) (Ok {| KeyMaterial := "PRIVATE KEY" |})
    (Ok three_instances) three_ips.

Definition happy_config : Config := sample_config (Some "t0ken") (Some "octo") 3.

Definition duplicate_group : exn :=
  ClientError ("An error occurred (InvalidGroup.Duplicate) when calling the "
               +:+ "CreateSecurityGroup operation: The security group "
               +:+ "'allow_ssh_http' already exists for VPC 'vpc-1'").

Definition duplicate_key : exn :=
  ClientError ("An error occurred (InvalidKeyPair.Duplicate) when calling the "
               +:+ "CreateKeyPair operation: The keypair already exists").

Definition drifted_group : SecurityGroup :=
  {| GroupId := "sg-old";
     IpPermissions := [{| IpProtocol := "tcp"; FromPort := 8080; ToPort := 8080;
                          IpRanges := [{| CidrIp := "10.0.0.0/8" |}] |}] |}.

(** A second run: the repository, the key pair and the group exist already. *)
Definition rerun_world : World :=
  sample_world (Ok conflict_response) (Ok [{| VpcId := "vpc-1" |}])
    (Raise duplicate_group) (Ok tt) (Ok [drifted_group])
    (Ok three_images) (Raise duplicate_key)
    (Ok three_instances) three_ips.

(** The account has no default VPC and no image matches. *)
Definition barren_world : World :=
  sample_world (Ok created_response) (Ok [])
    (Ok {| new_GroupId := "sg-new" |}) (Ok tt) (Ok [])
    (Ok []) (Ok {| KeyMaterial := "PRIVATE KEY" |})
    (Ok three_instances) three_ips.

Definition rules_refused : exn :=
  ClientError ("An error occurred (UnauthorizedOperation) when calling the "
               +:+ "AuthorizeSecurityGroupIngress operation: not authorized").

(** The group can be created but its rules are refused. *)
Definition half_done_world : World :=
  sample_world (Ok created_response) (Ok [{| VpcId := "vpc-1" |}])
    (Ok {| new_GroupId := "sg-new" |}) (Raise rules_refused) (Ok [])
    (Ok three_images) (Ok {| KeyMaterial := "PRIVATE KEY" |})
    (Ok three_instances) three_ips.

Definition no_token_config : Config := sample_config None (Some "octo") 3.

(** ** Further readings of a run *)


Definition is_wait_event (ev : event) : bool :=
  match ev with
  | EvWaitUntilRunning _ _ => true
  | _ => false
  end.

Definition is_reload_event (ev : event) : bool :=
  match ev with
  | EvReload _ _ => true
  | _ => false
  end.

(** The calls of a journal come in the order of the stages. *)
Definition stage_ordered (evs : list event) : Prop :=
  StronglySorted
    (fun a b => (stage_index (stage_of a) <= stage_index (stage_of b))%nat) evs.

(** A run of [m] appends stage-ordered calls of the stages [lo] to [hi]. *)
Definition in_stages {A : Type} (lo hi : nat) (m : M A) : Prop :=
  forall st, exists evs,
    trace (snd (m st)) = trace st ++ evs
    /\ Forall (fun ev => (lo <= stage_index (stage_of ev) <= hi)%nat) evs
    /\ stage_ordered evs.




(** ** Further sample worlds *)

(** [w] with other answers of the operating system. *)
Definition with_os (w : World) (opened written chmodded : result unit) : World :=
  {| requests_post := requests_post w;
     describe_vpcs := describe_vpcs w;
     ec2_create_security_group := ec2_create_security_group w;
     authorize_security_group_ingress := authorize_security_group_ingress w;
     describe_security_groups := describe_security_groups w;
     describe_images := describe_images w;
     ec2_create_key_pair := ec2_create_key_pair w;
     create_instances := create_instances w;
     wait_until_running := wait_until_running w;
     reload := reload w;
     os_open_write := fun _ _ => opened;
     os_write := fun _ _ _ => written;
     os_chmod := fun _ _ _ => chmodded;
     umask := umask w |}.

(** [w] with other outcomes of the waits, by instance id. *)
Definition with_wait (w : World) (waited : string -> result unit) : World :=
  {| requests_post := requests_post w;
     describe_vpcs := describe_vpcs w;
     ec2_create_security_group := ec2_create_security_group w;
     authorize_security_group_ingress := authorize_security_group_ingress w;
     describe_security_groups := describe_security_groups w;
     describe_images := describe_images w;
     ec2_create_key_pair := ec2_create_key_pair w;
     create_instances := create_instances w;
     wait_until_running := fun _ id => waited id;
     reload := reload w;
     os_open_write := os_open_write w;
     os_write := os_write w;
     os_chmod := os_chmod w;
     umask := umask w |}.

Definition permission_denied : exn :=
  OtherError "PermissionError" "[Errno 13] Permission denied: 'deployer-key.pem'".

Definition waiter_failed : exn :=
  OtherError "WaiterError" "Waiter InstanceRunning failed: Max attempts exceeded".

Definition second_never_runs (id : string) : result unit :=
  if String.eqb id "i-02" then Raise waiter_failed else Ok tt.

Definition forbidden_response : Response :=
  {| status_code := 403; text := "Bad credentials";
     json := Ok [("message", "Bad credentials")] |}.


(** The caller may not create key pairs. *)
Definition unauthorized_world : World :=
  sample_world (Ok created_response) (Ok [{| VpcId := "vpc-1" |}])
    (Ok {| new_GroupId := "sg-new" |}) (Ok tt) (Ok [])
    (Ok three_images) (Raise rules_refused)
    (Ok three_instances) three_ips.

(** The token is rejected by GitHub. *)
Definition forbidden_world : World :=
  sample_world (Ok forbidden_response) (Ok [{| VpcId := "vpc-1" |}])
    (Ok {| new_GroupId := "sg-new" |}) (Ok tt) (Ok [])
    (Ok three_images) (Ok {| KeyMaterial := "PRIVATE KEY" |})
    (Ok three_instances) three_ips.

(** The group is created, but the authorisation answers that it is a
    duplicate; looking the name up finds the older group. *)
Definition late_duplicate_world : World :=
  sample_world (Ok created_response) (Ok [{| VpcId := "vpc-1" |}])
    (Ok {| new_GroupId := "sg-new" |}) (Raise duplicate_group) (Ok [drifted_group])
    (Ok three_images) (Ok {| KeyMaterial := "PRIVATE KEY" |})
    (Ok three_instances) three_ips.

(** The group is reported as a duplicate, but the lookup by name is empty. *)
Definition vanished_group_world : World :=
  sample_world (Ok created_response) (Ok [{| VpcId := "vpc-1" |}])
    (Raise duplicate_group) (Ok tt) (Ok [])
    (Ok three_images) (Ok {| KeyMaterial := "PRIVATE KEY" |})
    (Ok three_instances) three_ips.

Definition shuffled_images : list Image :=
  [{| ImageId := "ami-dec"; CreationDate := "2023-12-01" |};
   {| ImageId := "ami-jan"; CreationDate := "2024-01-01" |};
   {| ImageId := "ami-jun"; CreationDate := "2024-06-01" |}].

Definition shuffled_world : World :=
  sample_world (Ok created_response) (Ok [{| VpcId := "vpc-1" |}])
    (Ok {| new_GroupId := "sg-new" |}) (Ok tt) (Ok [])
    (Ok shuffled_images) (Ok {| KeyMaterial := "PRIVATE KEY" |})
    (Ok three_instances) three_ips.

(** ** Basic facts *)

Lemma events_since_app (st st' : state) (evs : list event) :
  trace st' = trace st ++ evs -> events_since st st' = evs.
Proof. intros E. unfold events_since. rewrite E. apply drop_app_length. Qed.

Lemma truthy_Some (s : string) : s <> "" -> truthy (Some s) = true.
Proof.
  intros H. simpl. destruct (String.eqb_spec s ""); [contradiction | reflexivity].
Qed.

Ltac run :=
  unfold bind, call, print, ret, raise, lift, try_except, set_fs; simpl.

(** ** Repository creation *)

(** C3: a 422 answer to the creation request makes [create_github_repo]
    return the URL assembled from the host, the owner and the repository
    name, without raising; the creation request is the only call it makes. *)
Theorem create_github_repo_conflict
    (cfg : Config) (w : World) (st : state) (token owner : string) (resp : Response) :
  GITHUB_TOKEN cfg = Some token -> token <> "" ->
  GITHUB_USERNAME cfg = Some owner -> owner <> "" ->
  requests_post w (trace st) (repos_url) (repo_headers cfg) (repo_data cfg) = Ok resp ->
  status_code resp = 422 ->
  exists st',
    create_github_repo cfg w st
    = (Ok ("https://github.com/" +:+ owner +:+ "/" +:+ GITHUB_REPO_NAME cfg), st')
    /\ events_since st st' = [EvPost repos_url (repo_headers cfg) (repo_data cfg) (Ok resp)].
Proof.
  intros Htok Htok' Hown Hown' Hpost Hstatus.
  unfold create_github_repo.
  rewrite Htok, Hown, !truthy_Some by assumption. simpl.
  run. rewrite Hpost, Hstatus. simpl.
  eexists. split; [reflexivity |].
  apply events_since_app. reflexivity.
Qed.

Lemma create_github_repo_conflict_witness :
  exists st',
    create_github_repo happy_config rerun_world fresh
    = (Ok ("https://github.com/" +:+ "octo" +:+ "/" +:+ GITHUB_REPO_NAME happy_config), st')
    /\ events_since fresh st'
       = [EvPost repos_url (repo_headers happy_config) (repo_data happy_config)
            (Ok conflict_response)].
Proof.
  apply (create_github_repo_conflict happy_config _ fresh "t0ken" "octo" conflict_response);
    first [reflexivity | discriminate].
Defined.

(** ** Key pair *)

(** C4: when the provider refuses the key pair as a duplicate,
    [create_key_pair] returns without raising, leaves the file system as it
    was and makes no file-system call: the refused creation request is the
    only call of the run, and one warning is printed. *)
Theorem create_key_pair_duplicate
    (cfg : Config) (w : World) (st : state) (msg : string) :
  ec2_create_key_pair w (trace st) (KEY_PAIR_NAME cfg) = Raise (ClientError msg) ->
  str_in "InvalidKeyPair.Duplicate" msg = true ->
  exists st',
    create_key_pair cfg w st = (Ok tt, st')
    /\ fs st' = fs st
    /\ events_since st st' = [EvCreateKeyPair (KEY_PAIR_NAME cfg) (Raise (ClientError msg))]
    /\ stdout st' = stdout st ++ ["⚠️ Key pair already exists — reusing it."].
Proof.
  intros Hkey Hdup.
  unfold create_key_pair. run. rewrite Hkey. simpl. rewrite Hdup. simpl.
  eexists. split; [reflexivity |]. simpl.
  repeat split. apply events_since_app. reflexivity.
Qed.

Lemma create_key_pair_duplicate_witness :
  exists st',
    create_key_pair happy_config rerun_world fresh = (Ok tt, st')
    /\ fs st' = fs fresh
    /\ events_since fresh st'
       = [EvCreateKeyPair (KEY_PAIR_NAME happy_config) (Raise duplicate_key)]
    /\ stdout st' = stdout fresh ++ ["⚠️ Key pair already exists — reusing it."].
Proof.
  apply (create_key_pair_duplicate happy_config rerun_world fresh); reflexivity.
Defined.

(** ** Security group *)

(** C5: when the provider refuses the group as a duplicate,
    [create_security_group] looks the group up by name and returns the id of
    the first group of the answer, whatever rules that group carries; the run
    consists of the refused creation and the lookup, with no ingress
    authorisation. *)
Theorem create_security_group_duplicate
    (cfg : Config) (w : World) (st : state) (vpc_id msg : string)
    (sg : SecurityGroup) (others : list SecurityGroup) :
  let refused :=
    EvCreateSecurityGroup (SECURITY_GROUP_NAME cfg) group_description vpc_id
      (Raise (ClientError msg)) in
  ec2_create_security_group w (trace st) (SECURITY_GROUP_NAME cfg) group_description vpc_id
  = Raise (ClientError msg) ->
  str_in "InvalidGroup.Duplicate" msg = true ->
  describe_security_groups w (trace st ++ [refused]) [SECURITY_GROUP_NAME cfg]
  = Ok (sg :: others) ->
  exists st',
    create_security_group cfg w vpc_id st = (Ok (GroupId sg), st')
    /\ ingress_calls (events_since st st') = []
    /\ events_since st st'
       = [refused;
          EvDescribeSecurityGroups [SECURITY_GROUP_NAME cfg] (Ok (sg :: others))].
Proof.
  intros refused Hcreate Hdup Hlookup.
  unfold create_security_group. run. rewrite Hcreate. simpl. rewrite Hdup. simpl.
  fold refused. rewrite Hlookup. simpl.
  eexists. split; [reflexivity |].
  assert (E : forall st' : state,
             trace st' = trace st ++ [refused;
               EvDescribeSecurityGroups [SECURITY_GROUP_NAME cfg] (Ok (sg :: others))] ->
             ingress_calls (events_since st st') = []
             /\ events_since st st'
                = [refused;
                   EvDescribeSecurityGroups [SECURITY_GROUP_NAME cfg] (Ok (sg :: others))]).
  { intros st' E. rewrite (events_since_app _ _ _ E). split; reflexivity. }
  apply E. simpl. rewrite <- app_assoc. reflexivity.
Qed.

Lemma create_security_group_duplicate_witness :
  exists st',
    create_security_group happy_config rerun_world "vpc-1" fresh
    = (Ok (GroupId drifted_group), st')
    /\ ingress_calls (events_since fresh st') = []
    /\ events_since fresh st'
       = [EvCreateSecurityGroup (SECURITY_GROUP_NAME happy_config) group_description
            "vpc-1" (Raise duplicate_group);
          EvDescribeSecurityGroups [SECURITY_GROUP_NAME happy_config]
            (Ok [drifted_group])].
Proof.
  apply (create_security_group_duplicate happy_config rerun_world fresh "vpc-1" _
           drifted_group []); reflexivity.
Defined.

(** C10: when the group is created and the authorisation of its ingress
    rules is then refused with a [ClientError] that does not mention
    [InvalidGroup.Duplicate], [create_security_group] raises that error; the
    run consists of the successful creation and the refused authorisation and
    of nothing else, so the new group is left behind without its rules. *)
Theorem create_security_group_not_atomic
    (cfg : Config) (w : World) (st : state) (vpc_id msg : string) (g : CreatedGroup) :
  let created :=
    EvCreateSecurityGroup (SECURITY_GROUP_NAME cfg) group_description vpc_id (Ok g) in
  ec2_create_security_group w (trace st) (SECURITY_GROUP_NAME cfg) group_description vpc_id
  = Ok g ->
  authorize_security_group_ingress w (trace st ++ [created]) (new_GroupId g) ingress_rules
  = Raise (ClientError msg) ->
  str_in "InvalidGroup.Duplicate" msg = false ->
  exists st',
    create_security_group cfg w vpc_id st = (Raise (ClientError msg), st')
    /\ events_since st st'
       = [created;
          EvAuthorizeIngress (new_GroupId g) ingress_rules (Raise (ClientError msg))].
Proof.
  intros created Hcreate Hrules Hother.
  unfold create_security_group. run. rewrite Hcreate. simpl.
  fold created. rewrite Hrules. simpl. rewrite Hother. simpl.
  eexists. split; [reflexivity |].
  apply events_since_app. simpl. rewrite <- app_assoc. reflexivity.
Qed.

Lemma create_security_group_not_atomic_witness :
  exists st',
    create_security_group happy_config half_done_world "vpc-1" fresh
    = (Raise rules_refused, st')
    /\ events_since fresh st'
       = [EvCreateSecurityGroup (SECURITY_GROUP_NAME happy_config) group_description
            "vpc-1" (Ok {| new_GroupId := "sg-new" |});
          EvAuthorizeIngress "sg-new" ingress_rules (Raise rules_refused)].
Proof.
  apply (create_security_group_not_atomic happy_config half_done_world fresh "vpc-1" _
           {| new_GroupId := "sg-new" |}); reflexivity.
Defined.

(** ** Empty result sets *)



(** ** Image selection *)

(** The order of [str]: lexicographic on the characters. *)
Lemma string_compare_lt_trans (a b c : string) :
  (a ?= b)%string = Lt -> (b ?= c)%string = Lt -> (a ?= c)%string = Lt.
Proof.
  revert b c. induction a as [| x a IH]; intros [| y b] [| z c]; simpl;
    try discriminate; try reflexivity.
  unfold Ascii.compare.
  destruct (N.compare_spec (N_of_ascii x) (N_of_ascii y)) as [Exy | Lxy | Gxy];
    destruct (N.compare_spec (N_of_ascii y) (N_of_ascii z)) as [Eyz | Lyz | Gyz];
    try discriminate; intros Hab Hbc.
  - rewrite Exy, Eyz, N.compare_refl. eauto.
  - rewrite Exy. apply N.compare_lt_iff in Lyz. rewrite Lyz. reflexivity.
  - rewrite <- Eyz. apply N.compare_lt_iff in Lxy. rewrite Lxy. reflexivity.
  - assert (L : (N_of_ascii x < N_of_ascii z)%N) by lia.
    apply N.compare_lt_iff in L. rewrite L. reflexivity.
Qed.

Lemma string_leb_cases (a b : string) :
  String.leb a b = true <-> a = b \/ (a ?= b)%string = Lt.
Proof.
  unfold String.leb. destruct (a ?= b)%string eqn:E.
  - apply String.compare_eq_iff in E. tauto.
  - tauto.
  - split; [discriminate |]. intros [-> | ?]; [| discriminate].
    assert (R : (b ?= b)%string = Eq).
    { destruct (b ?= b)%string eqn:R; [reflexivity | |];
        pose proof (String.compare_antisym b b) as S; rewrite R in S; discriminate. }
    congruence.
Qed.

Lemma string_leb_trans (a b c : string) :
  String.leb a b = true -> String.leb b c = true -> String.leb a c = true.
Proof.
  rewrite !string_leb_cases. intros [-> | Hab] [-> | Hbc]; auto.
  right. eapply string_compare_lt_trans; eassumption.
Qed.

Lemma string_leb_false (a b : string) :
  String.leb a b = false -> String.leb b a = true.
Proof.
  intros H. destruct (String.leb_total a b) as [T | T]; congruence.
Qed.

(** What [sorted(..., reverse=True)] puts first: the first element of the
    input among those with the greatest key. *)
Lemma sorted_reverse_head {A : Type} (key : A -> string) (l : list A) :
  l <> [] ->
  exists m before after tail,
    sorted key true l = m :: tail
    /\ l = before ++ m :: after
    /\ Forall (fun x => String.leb (key m) (key x) = false) before
    /\ Forall (fun x => String.leb (key x) (key m) = true) after.
Proof.
  induction l as [| x rest IH]; [congruence |]. intros _.
  destruct rest as [| y rest'].
  - exists x, [], [], []. simpl. repeat split; constructor.
  - destruct IH as (m & before & after & tail & Hs & Hl & Hb & Ha); [congruence |].
    simpl sorted. simpl in Hs. rewrite Hs. simpl insert_sorted.
    unfold goes_before. destruct (String.leb (key m) (key x)) eqn:Hmx.
    + exists x, [], (y :: rest'), (m :: tail). repeat split; [constructor |].
      rewrite Hl. apply Forall_app. split; [| constructor].
      * eapply Forall_impl; [eassumption |]. simpl. intros z Hz.
        apply string_leb_false in Hz. eapply string_leb_trans; eassumption.
      * assumption.
      * eapply Forall_impl; [eassumption |]. simpl. intros z Hz.
        eapply string_leb_trans; eassumption.
    + exists m, (x :: before), after, (insert_sorted key true x tail).
      repeat split; [rewrite Hl; reflexivity | | assumption].
      constructor; assumption.
Qed.

(** C7: on a non-empty answer of the image query, [get_latest_ami] returns
    the id of the first image of the answer among those whose creation date
    is greatest: every image is at most as recent, and the images before it
    in the answer are strictly older.  For the dates 2024-01-01, 2024-06-01,
    2023-12-01 it returns the id of the second image. *)
Theorem get_latest_ami_newest (cfg : Config) (w : World) (st : state) :
  (forall images : list Image,
     describe_images w (trace st) ["amazon"] (image_filters cfg) = Ok images ->
     images <> [] ->
     exists newest before after st',
       get_latest_ami cfg w st = (Ok (ImageId newest), st')
       /\ images = before ++ newest :: after
       /\ Forall (fun x => String.leb (CreationDate x) (CreationDate newest) = true) images
       /\ Forall (fun x => String.leb (CreationDate newest) (CreationDate x) = false) before)
  /\
  (forall jan jun dec : string,
     describe_images w (trace st) ["amazon"] (image_filters cfg)
     = Ok [{| ImageId := jan; CreationDate := "2024-01-01" |};
           {| ImageId := jun; CreationDate := "2024-06-01" |};
           {| ImageId := dec; CreationDate := "2023-12-01" |}] ->
     fst (get_latest_ami cfg w st) = Ok jun).
Proof.
  split.
  - intros images Himages Hne.
    destruct (sorted_reverse_head CreationDate images Hne)
      as (m & before & after & tail & Hs & Hl & Hb & Ha).
    exists m, before, after.
    unfold get_latest_ami. run. rewrite Himages. simpl. rewrite Hs. simpl.
    eexists. split; [reflexivity |]. split; [assumption |]. split; [| assumption].
    rewrite Hl. apply Forall_app. split; [| constructor].
    + eapply Forall_impl; [eassumption |]. simpl. intros z. apply string_leb_false.
    + apply string_leb_cases. left. reflexivity.
    + assumption.
  - intros jan jun dec Himages.
    unfold get_latest_ami. run. rewrite Himages. reflexivity.
Qed.

Lemma get_latest_ami_newest_witness :
  (exists newest before after st',
     get_latest_ami happy_config happy_world fresh = (Ok (ImageId newest), st')
     /\ three_images = before ++ newest :: after
     /\ Forall (fun x => String.leb (CreationDate x) (CreationDate newest) = true)
          three_images
     /\ Forall (fun x => String.leb (CreationDate newest) (CreationDate x) = false) before)
  /\ fst (get_latest_ami happy_config happy_world fresh) = Ok "ami-jun".
Proof.
  split.
  - apply (proj1 (get_latest_ami_newest happy_config happy_world fresh) three_images);
      [reflexivity | discriminate].
  - apply (proj2 (get_latest_ami_newest happy_config happy_world fresh)
             "ami-jan" "ami-jun" "ami-dec").
    reflexivity.
Defined.

(** ** What a computation adds to the journal *)

Section Emits.
Context (P : event -> Prop).

Lemma emits_ret {A : Type} (a : A) : emits P (ret a).
Proof. intros st. exists []. simpl. rewrite app_nil_r. auto. Qed.

Lemma emits_raise {A : Type} (e : exn) : emits P (@raise A e).
Proof. intros st. exists []. simpl. rewrite app_nil_r. auto. Qed.

Lemma emits_lift {A : Type} (r : result A) : emits P (lift r).
Proof. intros st. exists []. simpl. rewrite app_nil_r. auto. Qed.

Lemma emits_print (line : string) : emits P (print line).
Proof. intros st. exists []. simpl. rewrite app_nil_r. auto. Qed.

Lemma emits_set_fs (f : gmap string File -> gmap string File) : emits P (set_fs f).
Proof. intros st. exists []. simpl. rewrite app_nil_r. auto. Qed.

Lemma emits_call {A : Type} (ask : list event -> result A) (ev : result A -> event) :
  (forall r, P (ev r)) -> emits P (call ask ev).
Proof. intros H st. exists [ev (ask (trace st))]. simpl. auto. Qed.

Lemma emits_bind {A B : Type} (m : M A) (k : A -> M B) :
  emits P m -> (forall a, emits P (k a)) -> emits P (bind m k).
Proof.
  intros Hm Hk st. unfold bind.
  destruct (Hm st) as (evs & E & F). destruct (m st) as [[a | e] st1]; simpl in *.
  - destruct (Hk a st1) as (evs' & E' & F').
    exists (evs ++ evs'). rewrite E', E, app_assoc. split; [reflexivity |].
    apply Forall_app. auto.
  - exists evs. auto.
Qed.

Lemma emits_try_except {A : Type} (body : M A) (handles : exn -> bool)
    (handler : exn -> M A) :
  emits P body -> (forall e, emits P (handler e)) ->
  emits P (try_except body handles handler).
Proof.
  intros Hm Hk st. unfold try_except.
  destruct (Hm st) as (evs & E & F). destruct (body st) as [[a | e] st1]; simpl in *.
  - exists evs. auto.
  - destruct (handles e); [| exists evs; auto].
    destruct (Hk e st1) as (evs' & E' & F').
    exists (evs ++ evs'). rewrite E', E, app_assoc. split; [reflexivity |].
    apply Forall_app. auto.
Qed.

Lemma emits_for_each {A : Type} (l : list A) (body : A -> M unit) :
  (forall x, emits P (body x)) -> emits P (for_each l body).
Proof.
  intros H. induction l as [| x rest IH]; simpl.
  - apply emits_ret.
  - apply emits_bind; auto.
Qed.

Lemma emits_comprehension {A B : Type} (l : list A) (f : A -> M B) :
  (forall x, emits P (f x)) -> emits P (comprehension l f).
Proof.
  intros H. induction l as [| x rest IH]; simpl.
  - apply emits_ret.
  - apply emits_bind; [auto |]. intros y.
    apply emits_bind; [auto |]. intros ys. apply emits_ret.
Qed.
End Emits.

Lemma emits_mono {A : Type} (P Q : event -> Prop) (m : M A) :
  (forall ev, P ev -> Q ev) -> emits P m -> emits Q m.
Proof.
  intros H Hm st. destruct (Hm st) as (evs & E & F).
  exists evs. split; [assumption |]. eapply Forall_impl; eassumption.
Qed.

(** Breaks a computation of the script into its calls. *)
Ltac emits_steps :=
  repeat first
    [ apply emits_ret | apply emits_raise | apply emits_lift | apply emits_print
    | apply emits_set_fs
    | apply emits_call; intros; simpl; try reflexivity; try lia
    | apply emits_bind; [| intros]
    | apply emits_try_except; [| intros]
    | apply emits_for_each; intros
    | apply emits_comprehension; intros
    | match goal with
      | |- emits _ (if ?c then _ else _) => destruct c
      | |- emits _ (let _ := _ in _) => cbv zeta
      end ].

(** ** Launching the fleet *)

Lemma create_calls_app (l k : list event) :
  create_calls (l ++ k) = create_calls l ++ create_calls k.
Proof. unfold create_calls. apply flat_map_app. Qed.

Lemma create_calls_none (evs : list event) :
  Forall (fun ev => is_create_event ev = false) evs -> create_calls evs = [].
Proof.
  induction 1 as [| ev evs Hev _ IH]; [reflexivity |].
  change (ev :: evs) with ([ev] ++ evs). rewrite create_calls_app, IH.
  destruct ev; try discriminate; reflexivity.
Qed.

(** C1: whatever the provider answers, a run of [launch_instances] for a
    fleet of [INSTANCE_COUNT >= 1] journals exactly one batch-creation call,
    and that call carries [MinCount = MaxCount = INSTANCE_COUNT]. *)
Theorem launch_instances_one_batch
    (cfg : Config) (w : World) (ami_id sg_id : string) (st : state) :
  1 <= INSTANCE_COUNT cfg ->
  create_calls (events_since st (snd (launch_instances cfg w ami_id sg_id st)))
  = [(INSTANCE_COUNT cfg, INSTANCE_COUNT cfg)].
Proof.
  intros _. unfold launch_instances.
  set (rest := fun instances : list Instance => bind (print _) _).
  assert (Hrest : forall instances,
            emits (fun ev => is_create_event ev = false) (rest instances)).
  { intros instances. unfold rest. emits_steps. }
  unfold bind at 1. simpl. unfold bind at 1. simpl.
  destruct (create_instances w (trace st) (run_request cfg ami_id sg_id))
    as [instances | e]; simpl.
  - destruct (Hrest instances
                {| trace := trace st ++ [EvCreateInstances (run_request cfg ami_id sg_id)
                                           (Ok instances)];
                   stdout := stdout st ++ ["🚀 Launching " +:+ str_of_int (INSTANCE_COUNT cfg)
                                             +:+ " EC2 instances of type "
                                             +:+ INSTANCE_TYPE cfg +:+ "..."];
                   fs := fs st |}) as (evs & E & F).
    simpl in E.
    rewrite (events_since_app _ _ (EvCreateInstances (run_request cfg ami_id sg_id)
                                     (Ok instances) :: evs)).
    + change (?x :: evs) with ([x] ++ evs).
      rewrite create_calls_app, (create_calls_none evs F). reflexivity.
    + rewrite E, <- app_assoc. reflexivity.
  - rewrite (events_since_app _ _ [EvCreateInstances (run_request cfg ami_id sg_id)
                                     (Raise e)]); reflexivity.
Qed.

Lemma launch_instances_one_batch_witness :
  1 <= INSTANCE_COUNT happy_config
  /\ create_calls (events_since fresh
                     (snd (launch_instances happy_config happy_world "ami-jun" "sg-new" fresh)))
     = [(3, 3)].
Proof.
  split; [simpl; lia |].
  apply (launch_instances_one_batch happy_config happy_world "ami-jun" "sg-new" fresh).
  simpl. lia.
Defined.

Lemma journalled_nil (st : state) : journalled st [] = st.
Proof. destruct st. unfold journalled. simpl. rewrite app_nil_r. reflexivity. Qed.

Lemma printed_nil (st : state) : printed st [] = st.
Proof. destruct st. unfold printed. simpl. rewrite app_nil_r. reflexivity. Qed.

Lemma journalled_journalled (st : state) (l k : list event) :
  journalled (journalled st l) k = journalled st (l ++ k).
Proof. unfold journalled. simpl. rewrite app_assoc. reflexivity. Qed.

Lemma printed_printed (st : state) (l k : list string) :
  printed (printed st l) k = printed st (l ++ k).
Proof. unfold printed. simpl. rewrite app_assoc. reflexivity. Qed.

Lemma bind_ok {A B : Type} (m : M A) (k : A -> M B) (st st1 : state) (a : A) :
  m st = (Ok a, st1) -> bind m k st = k a st1.
Proof. intros E. unfold bind. rewrite E. reflexivity. Qed.

Lemma bind_raise {A B : Type} (m : M A) (k : A -> M B) (st st1 : state) (e : exn) :
  m st = (Raise e, st1) -> bind m k st = (Raise e, st1).
Proof. intros E. unfold bind. rewrite E. reflexivity. Qed.

Lemma print_run (line : string) (st : state) :
  print line st = (Ok tt, printed st [line]).
Proof. reflexivity. Qed.

Lemma for_each_print {A : Type} (f : A -> string) (l : list A) (st : state) :
  for_each l (fun x => print (f x)) st = (Ok tt, printed st (map f l)).
Proof.
  revert st. induction l as [| x rest IH]; intros st; simpl.
  - rewrite printed_nil. reflexivity.
  - rewrite (bind_ok _ _ _ _ _ (print_run _ _)), IH, printed_printed. reflexivity.
Qed.

Lemma for_each_wait_ok (w : World) (instances : list Instance) :
  (forall h i, In i instances -> wait_until_running w h (instance_id i) = Ok tt) ->
  forall st,
    for_each instances (instance_wait_until_running w) st
    = (Ok tt, journalled st (wait_events instances)).
Proof.
  induction instances as [| i rest IH]; intros H st; simpl.
  - rewrite journalled_nil. reflexivity.
  - unfold bind, instance_wait_until_running at 1, call. simpl.
    rewrite (H _ i) by (left; reflexivity).
    rewrite IH by (intros; apply H; right; assumption).
    unfold journalled. simpl. rewrite <- app_assoc. reflexivity.
Qed.

Lemma comprehension_reload_ok (w : World) (instances : list Instance)
    (ips : list (option string)) :
  Forall2 (fun i ip => forall h, reload w h (instance_id i) = Ok ip) instances ips ->
  forall st,
    exists reloaded,
      comprehension instances (instance_reload w) st
      = (Ok reloaded, journalled st (reload_events instances ips))
      /\ map public_ip_address reloaded = ips.
Proof.
  induction 1 as [| i ip rest ips' Hi _ IH]; intros st; simpl.
  - exists []. rewrite journalled_nil. auto.
  - unfold bind at 1, instance_reload at 1, bind at 1, call, ret. simpl. rewrite Hi.
    match goal with
    | |- context [bind (comprehension rest _) _ ?s] => destruct (IH s) as (reloaded & E & Hips)
    end.
    rewrite (bind_ok _ _ _ _ _ E). unfold ret.
    eexists. split.
    + f_equal. unfold journalled. simpl. rewrite <- app_assoc. reflexivity.
    + simpl. rewrite Hips. reflexivity.
Qed.

(** C2: when the batch creation answers with a list of instances, every
    wait returns and every reload succeeds, [launch_instances] returns the
    public addresses the reloads reported, one per instance and in the order
    of the provider's list, a missing address as [None]; the instances are
    waited for, and then reloaded, in that same order. *)
Theorem launch_instances_returns_ips
    (cfg : Config) (w : World) (ami_id sg_id : string) (st : state)
    (instances : list Instance) (ips : list (option string)) :
  create_instances w (trace st) (run_request cfg ami_id sg_id) = Ok instances ->
  (forall h i, In i instances -> wait_until_running w h (instance_id i) = Ok tt) ->
  Forall2 (fun i ip => forall h, reload w h (instance_id i) = Ok ip) instances ips ->
  exists st',
    launch_instances cfg w ami_id sg_id st = (Ok ips, st')
    /\ length ips = length instances
    /\ events_since st st'
       = EvCreateInstances (run_request cfg ami_id sg_id) (Ok instances)
         :: wait_events instances ++ reload_events instances ips.
Proof.
  intros Hcreate Hwait Hreload.
  unfold launch_instances.
  rewrite (bind_ok _ _ _ _ _ (print_run _ _)).
  unfold bind at 1, call at 1. simpl. rewrite Hcreate.
  rewrite (bind_ok _ _ _ _ _ (print_run _ _)).
  rewrite (bind_ok _ _ _ _ _ (for_each_wait_ok w instances Hwait _)).
  match goal with
  | |- context [bind (comprehension instances _) _ ?s] =>
      destruct (comprehension_reload_ok w instances ips Hreload s) as (reloaded & E & Hips)
  end.
  rewrite (bind_ok _ _ _ _ _ E). cbv zeta.
  rewrite (bind_ok _ _ _ _ _ (print_run _ _)).
  rewrite (bind_ok _ _ _ _ _ (for_each_print _ _ _)).
  rewrite Hips. unfold ret.
  eexists. split; [reflexivity |]. split.
  - symmetry. eapply Forall2_length. eassumption.
  - apply events_since_app. simpl. rewrite <- !app_assoc. reflexivity.
Qed.

Lemma launch_instances_returns_ips_witness :
  exists st',
    launch_instances happy_config happy_world "ami-jun" "sg-new" fresh
    = (Ok [Some "1.2.3.4"; Some "5.6.7.8"; None], st')
    /\ length [Some "1.2.3.4"; Some "5.6.7.8"; @None string] = length three_instances
    /\ events_since fresh st'
       = EvCreateInstances (run_request happy_config "ami-jun" "sg-new") (Ok three_instances)
         :: wait_events three_instances
            ++ reload_events three_instances [Some "1.2.3.4"; Some "5.6.7.8"; None].
Proof.
  apply (launch_instances_returns_ips happy_config happy_world "ami-jun" "sg-new" fresh
           three_instances [Some "1.2.3.4"; Some "5.6.7.8"; None]).
  - reflexivity.
  - intros h i _. reflexivity.
  - repeat constructor.
Defined.

(** ** The orchestration sequence *)

Lemma create_github_repo_emits (cfg : Config) (w : World) :
  emits (fun ev => stage_of ev = RepositoryStage) (create_github_repo cfg w).
Proof. unfold create_github_repo. emits_steps. Qed.

Lemma create_key_pair_emits (cfg : Config) (w : World) :
  emits (fun ev => stage_of ev = KeyPairStage) (create_key_pair cfg w).
Proof. unfold create_key_pair, open_write, file_write, chmod. emits_steps. Qed.

Lemma get_default_vpc_id_emits (w : World) :
  emits (fun ev => stage_of ev = NetworkStage) (get_default_vpc_id w).
Proof. unfold get_default_vpc_id. emits_steps. Qed.

Lemma create_security_group_emits (cfg : Config) (w : World) (vpc_id : string) :
  emits (fun ev => stage_of ev = SecurityGroupStage) (create_security_group cfg w vpc_id).
Proof. unfold create_security_group. emits_steps. Qed.

Lemma get_latest_ami_emits (cfg : Config) (w : World) :
  emits (fun ev => stage_of ev = ImageStage) (get_latest_ami cfg w).
Proof. unfold get_latest_ami. emits_steps. Qed.

Lemma launch_instances_emits (cfg : Config) (w : World) (ami_id sg_id : string) :
  emits (fun ev => stage_of ev = FleetStage) (launch_instances cfg w ami_id sg_id).
Proof.
  unfold launch_instances, instance_wait_until_running, instance_reload. emits_steps.
Qed.

Lemma within_started (bound : nat) (st : state) : within bound st (started st).
Proof. exists []. simpl. rewrite app_nil_r. auto. Qed.

Lemma within_trans (bound : nat) (st1 st2 st3 : state) :
  within bound st1 st2 -> within bound st2 st3 -> within bound st1 st3.
Proof.
  intros (l & E & F) (k & E' & F'). exists (l ++ k).
  rewrite E', E, app_assoc. split; [reflexivity |]. apply Forall_app. auto.
Qed.

Lemma within_stage {A : Type} (s : Stage) (bound : nat) (m : M A) (st st' : state)
    (r : result A) :
  emits (fun ev => stage_of ev = s) m -> (stage_index s <= bound)%nat ->
  m st = (r, st') -> within bound st st'.
Proof.
  intros Hm Hs E. destruct (Hm st) as (evs & Et & F). rewrite E in Et. simpl in Et.
  exists evs. split; [assumption |].
  eapply Forall_impl; [eassumption |]. simpl. intros ev ->. assumption.
Qed.

Lemma within_no_create (bound : nat) (st st' : state) :
  (bound < stage_index FleetStage)%nat -> within bound st st' ->
  create_calls (events_since st st') = [].
Proof.
  intros Hb (evs & E & F). rewrite (events_since_app _ _ _ E).
  apply create_calls_none. eapply Forall_impl; [eassumption |]. simpl.
  intros ev Hev. destruct ev; try reflexivity; simpl in *; lia.
Qed.

Ltac stage_emits :=
  first [ apply create_github_repo_emits | apply create_key_pair_emits
        | apply get_default_vpc_id_emits | apply create_security_group_emits
        | apply get_latest_ami_emits | apply launch_instances_emits ].

Ltac within_chain :=
  repeat first
    [ apply within_started
    | match goal with
      | H : ?f ?s0 = (_, ?s') |- within _ _ ?s' =>
          eapply within_trans;
          [| eapply within_stage; [| | exact H]]; clear H
      end ].

(** C8: when a stage of [main] raises after the stages before it returned,
    [main] raises the same exception and ends in the very state in which
    that stage left off: no later stage runs, the journal holds no call of a
    later stage, and unless the failing stage is the fleet launch itself no
    batch-creation call was issued.  A failure of [get_default_vpc_id] after
    the repository and the key pair succeeded is the case [NetworkStage]. *)
Theorem main_stops_at_first_failure
    (cfg : Config) (w : World) (st : state) (e : exn) (st' : state) (s : Stage) :
  first_failure cfg w st e st' s ->
  main cfg w st = (Raise e, st')
  /\ Forall (fun ev => (stage_index (stage_of ev) <= stage_index s)%nat)
       (events_since st st')
  /\ (s <> FleetStage -> create_calls (events_since st st') = []).
Proof.
  intros Hfail.
  assert (Hmain : main cfg w st = (Raise e, st')).
  { unfold main. rewrite (bind_ok _ _ _ _ _ (print_run _ _)). fold (started st).
    destruct Hfail;
      repeat match goal with
             | H : _ = (Ok _, _) |- _ => rewrite (bind_ok _ _ _ _ _ H); clear H
             | H : _ = (Raise _, _) |- _ => rewrite (bind_raise _ _ _ _ _ H); clear H
             end; reflexivity. }
  assert (Hwithin : within (stage_index s) st st').
  { clear Hmain. destruct Hfail; simpl; within_chain.
    all: try stage_emits.
    all: simpl; lia. }
  split; [assumption |]. split.
  - destruct Hwithin as (evs & E & F). rewrite (events_since_app _ _ _ E). assumption.
  - intros Hs. apply (within_no_create (stage_index s)); [| assumption].
    destruct s; simpl; try lia. congruence.
Qed.

Lemma main_stops_at_first_failure_witness :
  let st' := snd (main happy_config barren_world fresh) in
  first_failure happy_config barren_world fresh
    (IndexError "list index out of range") st' NetworkStage
  /\ main happy_config barren_world fresh = (Raise (IndexError "list index out of range"), st')
  /\ Forall (fun ev => (stage_index (stage_of ev) <= stage_index NetworkStage)%nat)
       (events_since fresh st')
  /\ (NetworkStage <> FleetStage -> create_calls (events_since fresh st') = []).
Proof.
  assert (F : first_failure happy_config barren_world fresh
                (IndexError "list index out of range")
                (snd (main happy_config barren_world fresh)) NetworkStage).
  { apply (network_fails _ _ _ _ _ "https://github.com/octo/aws-ec2-50"
             (snd (create_github_repo happy_config barren_world (started fresh)))
             (snd (create_key_pair happy_config barren_world
                     (snd (create_github_repo happy_config barren_world (started fresh))))));
      vm_compute; reflexivity. }
  split; [exact F |].
  exact (main_stops_at_first_failure happy_config barren_world fresh _ _ NetworkStage F).
Defined.

(** X18: every failure of [main] is the failure of one of its six stages
    after the stages before it returned: the summary that follows the fleet
    launch only prints and never raises. *)
Lemma main_failure_is_first_failure
    (cfg : Config) (w : World) (st : state) (e : exn) (st' : state) :
  main cfg w st = (Raise e, st') -> exists s, first_failure cfg w st e st' s.
Proof.
  unfold main. rewrite (bind_ok _ _ _ _ _ (print_run _ _)). fold (started st).
  destruct (create_github_repo cfg w (started st)) as [[repo_url | e1] s1] eqn:E1.
  2:{ rewrite (bind_raise _ _ _ _ _ E1). intros [= <- <-].
      eexists. apply repository_fails. assumption. }
  rewrite (bind_ok _ _ _ _ _ E1).
  destruct (create_key_pair cfg w s1) as [[[] | e2] s2] eqn:E2.
  2:{ rewrite (bind_raise _ _ _ _ _ E2). intros [= <- <-].
      eexists. eapply key_material_fails; eassumption. }
  rewrite (bind_ok _ _ _ _ _ E2).
  destruct (get_default_vpc_id w s2) as [[vpc_id | e3] s3] eqn:E3.
  2:{ rewrite (bind_raise _ _ _ _ _ E3). intros [= <- <-].
      eexists. eapply network_fails; eassumption. }
  rewrite (bind_ok _ _ _ _ _ E3).
  destruct (create_security_group cfg w vpc_id s3) as [[sg_id | e4] s4] eqn:E4.
  2:{ rewrite (bind_raise _ _ _ _ _ E4). intros [= <- <-].
      eexists. eapply firewall_fails; eassumption. }
  rewrite (bind_ok _ _ _ _ _ E4).
  destruct (get_latest_ami cfg w s4) as [[ami_id | e5] s5] eqn:E5.
  2:{ rewrite (bind_raise _ _ _ _ _ E5). intros [= <- <-].
      eexists. eapply image_lookup_fails; eassumption. }
  rewrite (bind_ok _ _ _ _ _ E5).
  destruct (launch_instances cfg w ami_id sg_id s5) as [[ips | e6] s6] eqn:E6.
  2:{ rewrite (bind_raise _ _ _ _ _ E6). intros [= <- <-].
      eexists. eapply fleet_fails; eassumption. }
  rewrite (bind_ok _ _ _ _ _ E6).
  repeat rewrite (bind_ok _ _ _ _ _ (print_run _ _)).
  rewrite (bind_ok _ _ _ _ _ (for_each_print _ _ _)).
  repeat rewrite (bind_ok _ _ _ _ _ (print_run _ _)).
  rewrite print_run. discriminate.
Qed.

(** ** The error boundary *)

(** C9, as the script has it: an exception of class [Exception] that leaves
    [main] is caught by the [__main__] block, which prints one line,
    [Error:] with [str(e)], on standard output; the script then runs to its
    end, so the interpreter exits with status 0. *)
Theorem dunder_main_catches
    (cfg : Config) (w : World) (st : state) (e : exn) (st1 : state) :
  main cfg w st = (Raise e, st1) ->
  is_Exception e = true ->
  run_script cfg w st = (Completed, printed st1 ["❌ Error: " +:+ str_of_exn e])
  /\ exit_status (fst (run_script cfg w st)) = 0.
Proof.
  intros Hmain Hexc.
  unfold run_script, dunder_main, try_except. rewrite Hmain, Hexc.
  rewrite print_run. split; reflexivity.
Qed.

Lemma dunder_main_catches_witness :
  run_script no_token_config happy_world fresh
  = (Completed,
     printed (started fresh)
       ["❌ Error: " +:+ str_of_exn
          (ValueError "Missing GITHUB_TOKEN or GITHUB_USERNAME environment variables.")])
  /\ exit_status (fst (run_script no_token_config happy_world fresh)) = 0.
Proof.
  apply (dunder_main_catches no_token_config happy_world fresh
           (ValueError "Missing GITHUB_TOKEN or GITHUB_USERNAME environment variables.")
           (started fresh));
    reflexivity.
Defined.

(** Against C9 as the specification words it: without a token [main] raises
    [ValueError], the handler prints the error line, and the exit status is
    0, not a non-zero one. *)
Lemma missing_token_exits_with_zero :
  main no_token_config happy_world fresh
  = (Raise (ValueError "Missing GITHUB_TOKEN or GITHUB_USERNAME environment variables."),
     started fresh)
  /\ stdout (snd (run_script no_token_config happy_world fresh))
     = ["🌍 Starting deployment...";
        "❌ Error: Missing GITHUB_TOKEN or GITHUB_USERNAME environment variables."]
  /\ ~ exit_status (fst (run_script no_token_config happy_world fresh)) <> 0.
Proof.
  split; [reflexivity |]. split; [reflexivity |].
  intros H. apply H. reflexivity.
Qed.

(** An exception outside [Exception] is not caught: it leaves the script. *)
Lemma dunder_main_lets_through
    (cfg : Config) (w : World) (st : state) (e : exn) (st1 : state) :
  main cfg w st = (Raise e, st1) ->
  is_Exception e = false ->
  run_script cfg w st = (Uncaught e, st1).
Proof.
  intros Hmain Hexc.
  unfold run_script, dunder_main, try_except. rewrite Hmain, Hexc. reflexivity.
Qed.

(** A whole run in the account without a default VPC: the index error is
    reported on standard output and the script ends normally. *)
Example run_without_default_vpc :
  fst (run_script happy_config barren_world fresh) = Completed
  /\ last (stdout (snd (run_script happy_config barren_world fresh)))
     = Some "❌ Error: list index out of range"
  /\ create_calls (trace (snd (run_script happy_config barren_world fresh))) = [].
Proof. repeat split; vm_compute; reflexivity. Qed.

(** A whole run in which everything succeeds. *)
Example run_happy :
  fst (run_script happy_config happy_world fresh) = Completed
  /\ create_calls (trace (snd (run_script happy_config happy_world fresh))) = [(3, 3)]
  /\ fs (snd (run_script happy_config happy_world fresh)) !! "deployer-key.pem"
     = Some {| content := "PRIVATE KEY"; mode := 256 |}
  /\ last (stdout (snd (run_script happy_config happy_world fresh)))
     = Some "  aws ec2 terminate-instances --instance-ids <ids>".
Proof. repeat split; vm_compute; reflexivity. Qed.


(** ** Repository creation: the other answers *)

(** X1: without a token or without an owner (unset, or the empty string)
    [create_github_repo] raises [ValueError] before anything else happens:
    no request is sent and nothing is printed. *)
Theorem create_github_repo_missing_credentials
    (cfg : Config) (w : World) (st : state) :
  truthy (GITHUB_TOKEN cfg) = false \/ truthy (GITHUB_USERNAME cfg) = false ->
  create_github_repo cfg w st
  = (Raise (ValueError "Missing GITHUB_TOKEN or GITHUB_USERNAME environment variables."),
     st).
Proof.
  intros [H | H]; unfold create_github_repo; rewrite H; simpl.
  - reflexivity.
  - rewrite orb_true_r. reflexivity.
Qed.

Lemma create_github_repo_missing_credentials_witness :
  create_github_repo (sample_config (Some "t0ken") (Some "") 3) happy_world fresh
  = (Raise (ValueError "Missing GITHUB_TOKEN or GITHUB_USERNAME environment variables."),
     fresh).
Proof.
  apply (create_github_repo_missing_credentials
           (sample_config (Some "t0ken") (Some "") 3) happy_world fresh).
  right. reflexivity.
Defined.

(** X2: on a 201 or 202 answer the result is [resp.json()["html_url"]], the
    URL the provider reports, not one assembled from the owner and the name;
    a body that cannot be decoded, or that lacks the key, raises that error.
    The creation request is the only call. *)
Theorem create_github_repo_created
    (cfg : Config) (w : World) (st : state) (resp : Response) :
  truthy (GITHUB_TOKEN cfg) = true -> truthy (GITHUB_USERNAME cfg) = true ->
  requests_post w (trace st) repos_url (repo_headers cfg) (repo_data cfg) = Ok resp ->
  status_code resp = 201 \/ status_code resp = 202 ->
  fst (create_github_repo cfg w st)
  = match json resp with
    | Ok body => dict_get body "html_url"
    | Raise e => Raise e
    end
  /\ events_since st (snd (create_github_repo cfg w st))
     = [EvPost repos_url (repo_headers cfg) (repo_data cfg) (Ok resp)].
Proof.
  intros Htok Hown Hpost Hstatus.
  unfold create_github_repo. rewrite Htok, Hown. simpl.
  run. rewrite Hpost.
  assert (Hs : (status_code resp =? 201) || (status_code resp =? 202) = true).
  { destruct Hstatus as [-> | ->]; reflexivity. }
  rewrite Hs. simpl.
  destruct (json resp) as [body | e]; simpl.
  - destruct (dict_get body "html_url"); simpl;
      (split; [reflexivity | apply events_since_app; reflexivity]).
  - split; [reflexivity | apply events_since_app; reflexivity].
Qed.

Lemma create_github_repo_created_witness :
  fst (create_github_repo happy_config happy_world fresh)
  = match json created_response with
    | Ok body => dict_get body "html_url"
    | Raise e => Raise e
    end
  /\ events_since fresh (snd (create_github_repo happy_config happy_world fresh))
     = [EvPost repos_url (repo_headers happy_config) (repo_data happy_config)
          (Ok created_response)].
Proof.
  apply (create_github_repo_created happy_config happy_world fresh created_response);
    try reflexivity.
  left. reflexivity.
Defined.

(** X3: any status other than 201, 202 and 422 makes [create_github_repo]
    raise an [Exception] whose message carries the status code and the body
    of the answer; the creation request is the only call. *)
Theorem create_github_repo_other_status
    (cfg : Config) (w : World) (st : state) (resp : Response) :
  truthy (GITHUB_TOKEN cfg) = true -> truthy (GITHUB_USERNAME cfg) = true ->
  requests_post w (trace st) repos_url (repo_headers cfg) (repo_data cfg) = Ok resp ->
  status_code resp <> 201 -> status_code resp <> 202 -> status_code resp <> 422 ->
  fst (create_github_repo cfg w st)
  = Raise (Exception ("GitHub API error: " +:+ str_of_int (status_code resp)
                      +:+ " - " +:+ text resp))
  /\ events_since st (snd (create_github_repo cfg w st))
     = [EvPost repos_url (repo_headers cfg) (repo_data cfg) (Ok resp)].
Proof.
  intros Htok Hown Hpost H201 H202 H422.
  unfold create_github_repo. rewrite Htok, Hown. simpl.
  run. rewrite Hpost.
  apply Z.eqb_neq in H201, H202, H422. rewrite H201, H202, H422. simpl.
  split; [reflexivity | apply events_since_app; reflexivity].
Qed.

Lemma create_github_repo_other_status_witness :
  fst (create_github_repo happy_config forbidden_world fresh)
  = Raise (Exception ("GitHub API error: " +:+ str_of_int (status_code forbidden_response)
                      +:+ " - " +:+ text forbidden_response))
  /\ events_since fresh (snd (create_github_repo happy_config forbidden_world fresh))
     = [EvPost repos_url (repo_headers happy_config) (repo_data happy_config)
          (Ok forbidden_response)].
Proof.
  apply (create_github_repo_other_status happy_config forbidden_world fresh
           forbidden_response);
    first [reflexivity | discriminate].
Defined.

(** ** Key pair: the other paths *)

Lemma after_three_writes (m : gmap string File) (path : string) (a b c : File) :
  <[path := c]> (<[path := b]> (<[path := a]> m)) = <[path := c]> m.
Proof. rewrite !insert_insert_eq. reflexivity. Qed.

(** X4: when the key pair is created and the operating system lets the three
    file calls through, the file [<KEY_PAIR_NAME>.pem] holds exactly the key
    material, with mode 0o400, whatever was at that path before; the run is
    the creation followed by open, write and chmod. *)
Theorem create_key_pair_saves_key
    (cfg : Config) (w : World) (st : state) (key_pair : KeyPair) :
  let key_path := KEY_PAIR_NAME cfg +:+ ".pem" in
  ec2_create_key_pair w (trace st) (KEY_PAIR_NAME cfg) = Ok key_pair ->
  (forall h, os_open_write w h key_path = Ok tt) ->
  (forall h, os_write w h key_path (KeyMaterial key_pair) = Ok tt) ->
  (forall h, os_chmod w h key_path 256 = Ok tt) ->
  exists st',
    create_key_pair cfg w st = (Ok tt, st')
    /\ fs st' = <[key_path := {| content := KeyMaterial key_pair; mode := 256 |}]> (fs st)
    /\ events_since st st'
       = [EvCreateKeyPair (KEY_PAIR_NAME cfg) (Ok key_pair);
          EvOpenWrite key_path (Ok tt);
          EvWrite key_path (KeyMaterial key_pair) (Ok tt);
          EvChmod key_path 256 (Ok tt)].
Proof.
  intros key_path Hkey Hopen Hwrite Hchmod.
  unfold create_key_pair, open_write, file_write, chmod. fold key_path.
  run. rewrite Hkey. simpl. rewrite Hopen. simpl. rewrite Hwrite. simpl.
  rewrite Hchmod. simpl.
  eexists. split; [reflexivity |]. simpl. split.
  - destruct (fs st !! key_path) as [old |] eqn:Hold;
      rewrite !lookup_insert_eq; simpl; apply after_three_writes.
  - apply events_since_app. rewrite <- !app_assoc. reflexivity.
Qed.

Lemma create_key_pair_saves_key_witness :
  exists st',
    create_key_pair happy_config happy_world fresh = (Ok tt, st')
    /\ fs st' = <["deployer-key" +:+ ".pem"
                  := {| content := "PRIVATE KEY"; mode := 256 |}]> (fs fresh)
    /\ events_since fresh st'
       = [EvCreateKeyPair "deployer-key" (Ok {| KeyMaterial := "PRIVATE KEY" |});
          EvOpenWrite ("deployer-key" +:+ ".pem") (Ok tt);
          EvWrite ("deployer-key" +:+ ".pem") "PRIVATE KEY" (Ok tt);
          EvChmod ("deployer-key" +:+ ".pem") 256 (Ok tt)].
Proof.
  apply (create_key_pair_saves_key happy_config happy_world fresh
           {| KeyMaterial := "PRIVATE KEY" |});
    reflexivity.
Defined.

(** X5: when the creation of the key pair raises, whatever the exception,
    [create_key_pair] makes no file-system call and leaves the file system as
    it was; it returns normally exactly when the exception is a
    [ClientError] that mentions [InvalidKeyPair.Duplicate], and re-raises the
    same exception otherwise. *)
Theorem create_key_pair_refused
    (cfg : Config) (w : World) (st : state) (e : exn) :
  ec2_create_key_pair w (trace st) (KEY_PAIR_NAME cfg) = Raise e ->
  fst (create_key_pair cfg w st)
  = (if is_ClientError e && str_in "InvalidKeyPair.Duplicate" (str_of_exn e)
     then Ok tt else Raise e)
  /\ fs (snd (create_key_pair cfg w st)) = fs st
  /\ events_since st (snd (create_key_pair cfg w st))
     = [EvCreateKeyPair (KEY_PAIR_NAME cfg) (Raise e)].
Proof.
  intros Hkey. unfold create_key_pair. run. rewrite Hkey. simpl.
  destruct (is_ClientError e); simpl.
  - destruct (str_in "InvalidKeyPair.Duplicate" (str_of_exn e)); simpl;
      (repeat split; apply events_since_app; reflexivity).
  - repeat split. apply events_since_app. reflexivity.
Qed.

Lemma create_key_pair_refused_witness :
  fst (create_key_pair happy_config unauthorized_world fresh)
  = (if is_ClientError rules_refused
        && str_in "InvalidKeyPair.Duplicate" (str_of_exn rules_refused)
     then Ok tt else Raise rules_refused)
  /\ fs (snd (create_key_pair happy_config unauthorized_world fresh)) = fs fresh
  /\ events_since fresh (snd (create_key_pair happy_config unauthorized_world fresh))
     = [EvCreateKeyPair (KEY_PAIR_NAME happy_config) (Raise rules_refused)].
Proof.
  apply (create_key_pair_refused happy_config unauthorized_world fresh rules_refused).
  reflexivity.
Defined.

(** X6: the key pair is created but the file cannot be opened for writing
    (an error outside [ClientError]): [create_key_pair] raises that error
    after two calls, the file system is as it was, and the key material the
    provider returned is stored nowhere. *)
Theorem create_key_pair_open_fails
    (cfg : Config) (w : World) (st : state) (key_pair : KeyPair) (e : exn) :
  let key_path := KEY_PAIR_NAME cfg +:+ ".pem" in
  let created := EvCreateKeyPair (KEY_PAIR_NAME cfg) (Ok key_pair) in
  ec2_create_key_pair w (trace st) (KEY_PAIR_NAME cfg) = Ok key_pair ->
  os_open_write w (trace st ++ [created]) key_path = Raise e ->
  is_ClientError e = false ->
  exists st',
    create_key_pair cfg w st = (Raise e, st')
    /\ fs st' = fs st
    /\ stdout st' = stdout st
    /\ events_since st st' = [created; EvOpenWrite key_path (Raise e)].
Proof.
  intros key_path created Hkey Hopen He.
  unfold create_key_pair, open_write. fold key_path.
  run. rewrite Hkey. simpl. fold created. rewrite Hopen. simpl. rewrite He.
  eexists. split; [reflexivity |]. simpl. repeat split.
  apply events_since_app. rewrite <- app_assoc. reflexivity.
Qed.

Lemma create_key_pair_open_fails_witness :
  exists st',
    create_key_pair happy_config
      (with_os happy_world (Raise permission_denied) (Ok tt) (Ok tt)) fresh
    = (Raise permission_denied, st')
    /\ fs st' = fs fresh
    /\ stdout st' = stdout fresh
    /\ events_since fresh st'
       = [EvCreateKeyPair (KEY_PAIR_NAME happy_config) (Ok {| KeyMaterial := "PRIVATE KEY" |});
          EvOpenWrite (KEY_PAIR_NAME happy_config +:+ ".pem") (Raise permission_denied)].
Proof.
  apply (create_key_pair_open_fails happy_config
           (with_os happy_world (Raise permission_denied) (Ok tt) (Ok tt)) fresh
           {| KeyMaterial := "PRIVATE KEY" |} permission_denied);
    reflexivity.
Defined.

(** X7: the key pair is created and written to a new file, but [os.chmod]
    fails (an error outside [ClientError]): [create_key_pair] raises that
    error and the file stays behind holding the private key with the mode it
    was created with, [0o666 & ~umask], not 0o400. *)
Theorem create_key_pair_chmod_fails
    (cfg : Config) (w : World) (st : state) (key_pair : KeyPair) (e : exn) :
  let key_path := KEY_PAIR_NAME cfg +:+ ".pem" in
  ec2_create_key_pair w (trace st) (KEY_PAIR_NAME cfg) = Ok key_pair ->
  (forall h, os_open_write w h key_path = Ok tt) ->
  (forall h, os_write w h key_path (KeyMaterial key_pair) = Ok tt) ->
  (forall h, os_chmod w h key_path 256 = Raise e) ->
  is_ClientError e = false ->
  fs st !! key_path = None ->
  exists st',
    create_key_pair cfg w st = (Raise e, st')
    /\ fs st' !! key_path
       = Some {| content := KeyMaterial key_pair;
                 mode := Z.land 438 (Z.lnot (umask w)) |}.
Proof.
  intros key_path Hkey Hopen Hwrite Hchmod He Hnew.
  unfold create_key_pair, open_write, file_write, chmod. fold key_path.
  run. rewrite Hkey. simpl. rewrite Hopen. simpl. rewrite Hwrite. simpl.
  rewrite Hchmod. simpl. rewrite He.
  eexists. split; [reflexivity |]. simpl.
  rewrite Hnew, !lookup_insert_eq. reflexivity.
Qed.

Lemma create_key_pair_chmod_fails_witness :
  exists st',
    create_key_pair happy_config
      (with_os happy_world (Ok tt) (Ok tt) (Raise permission_denied)) fresh
    = (Raise permission_denied, st')
    /\ fs st' !! (KEY_PAIR_NAME happy_config +:+ ".pem")
       = Some {| content := "PRIVATE KEY"; mode := Z.land 438 (Z.lnot 18) |}.
Proof.
  apply (create_key_pair_chmod_fails happy_config
           (with_os happy_world (Ok tt) (Ok tt) (Raise permission_denied)) fresh
           {| KeyMaterial := "PRIVATE KEY" |} permission_denied);
    reflexivity.
Defined.


(** ** The file system as a whole *)

Section KeepsOtherFiles.
Context (path : string).










End KeepsOtherFiles.






(** ** Security group: the other paths *)

(** X9: when the group is created and its rules are accepted,
    [create_security_group] returns the id of the new group; the rules are
    authorised on that very id, and no lookup is made. *)
Theorem create_security_group_created
    (cfg : Config) (w : World) (st : state) (vpc_id : string) (g : CreatedGroup) :
  let created :=
    EvCreateSecurityGroup (SECURITY_GROUP_NAME cfg) group_description vpc_id (Ok g) in
  ec2_create_security_group w (trace st) (SECURITY_GROUP_NAME cfg) group_description vpc_id
  = Ok g ->
  authorize_security_group_ingress w (trace st ++ [created]) (new_GroupId g) ingress_rules
  = Ok tt ->
  exists st',
    create_security_group cfg w vpc_id st = (Ok (new_GroupId g), st')
    /\ events_since st st'
       = [created; EvAuthorizeIngress (new_GroupId g) ingress_rules (Ok tt)]
    /\ stdout st' = stdout st ++ ["✅ Security group created: " +:+ new_GroupId g].
Proof.
  intros created Hcreate Hrules.
  unfold create_security_group. run. rewrite Hcreate. simpl.
  fold created. rewrite Hrules. simpl.
  eexists. split; [reflexivity |]. simpl. split; [| reflexivity].
  apply events_since_app. rewrite <- app_assoc. reflexivity.
Qed.

Lemma create_security_group_created_witness :
  exists st',
    create_security_group happy_config happy_world "vpc-1" fresh = (Ok "sg-new", st')
    /\ events_since fresh st'
       = [EvCreateSecurityGroup (SECURITY_GROUP_NAME happy_config) group_description
            "vpc-1" (Ok {| new_GroupId := "sg-new" |});
          EvAuthorizeIngress "sg-new" ingress_rules (Ok tt)]
    /\ stdout st' = stdout fresh ++ ["✅ Security group created: " +:+ "sg-new"].
Proof.
  apply (create_security_group_created happy_config happy_world fresh "vpc-1"
           {| new_GroupId := "sg-new" |});
    reflexivity.
Defined.

(** X10: in every run of [create_security_group] ingress rules are
    authorised at most once, and only on the group that the same run has
    just created; the rules of a group that existed before are never
    touched. *)
Theorem create_security_group_authorizes_only_new
    (cfg : Config) (w : World) (st : state) (vpc_id : string) :
  let calls :=
    ingress_calls (events_since st (snd (create_security_group cfg w vpc_id st))) in
  calls = []
  \/ exists g,
       ec2_create_security_group w (trace st) (SECURITY_GROUP_NAME cfg)
         group_description vpc_id = Ok g
       /\ calls = [new_GroupId g].
Proof.
  unfold create_security_group. run.
  destruct (ec2_create_security_group w (trace st) (SECURITY_GROUP_NAME cfg)
              group_description vpc_id) as [g | e] eqn:Hcreate; simpl.
  - right. exists g. split; [reflexivity |].
    destruct (authorize_security_group_ingress w _ (new_GroupId g) ingress_rules)
      as [[] | e]; simpl.
    + erewrite events_since_app; [| simpl; rewrite <- app_assoc; reflexivity].
      reflexivity.
    + destruct (is_ClientError e); simpl.
      * destruct (str_in "InvalidGroup.Duplicate" (str_of_exn e)); simpl.
        -- destruct (describe_security_groups w _ [SECURITY_GROUP_NAME cfg])
             as [[| sg others] | e']; simpl;
             (erewrite events_since_app; [| simpl; rewrite <- !app_assoc; reflexivity]);
             reflexivity.
        -- erewrite events_since_app; [| simpl; rewrite <- app_assoc; reflexivity].
           reflexivity.
      * erewrite events_since_app; [| simpl; rewrite <- app_assoc; reflexivity].
        reflexivity.
  - left. destruct (is_ClientError e); simpl.
    + destruct (str_in "InvalidGroup.Duplicate" (str_of_exn e)); simpl.
      * destruct (describe_security_groups w _ [SECURITY_GROUP_NAME cfg])
          as [[| sg others] | e']; simpl;
          (erewrite events_since_app; [| simpl; rewrite <- !app_assoc; reflexivity]);
          reflexivity.
      * erewrite events_since_app; [| reflexivity]. reflexivity.
    + erewrite events_since_app; [| reflexivity]. reflexivity.
Qed.

(** X11: the [try] block covers both calls, so a duplicate reported by the
    authorisation, after the group was created, is handled like a duplicate
    reported by the creation: the name is looked up and the id of the first
    group found is returned, which need not be the id of the group just
    created. *)
Theorem create_security_group_late_duplicate
    (cfg : Config) (w : World) (st : state) (vpc_id msg : string) (g : CreatedGroup)
    (sg : SecurityGroup) (others : list SecurityGroup) :
  let created :=
    EvCreateSecurityGroup (SECURITY_GROUP_NAME cfg) group_description vpc_id (Ok g) in
  let refused :=
    EvAuthorizeIngress (new_GroupId g) ingress_rules (Raise (ClientError msg)) in
  ec2_create_security_group w (trace st) (SECURITY_GROUP_NAME cfg) group_description vpc_id
  = Ok g ->
  authorize_security_group_ingress w (trace st ++ [created]) (new_GroupId g) ingress_rules
  = Raise (ClientError msg) ->
  str_in "InvalidGroup.Duplicate" msg = true ->
  describe_security_groups w (trace st ++ [created; refused]) [SECURITY_GROUP_NAME cfg]
  = Ok (sg :: others) ->
  exists st',
    create_security_group cfg w vpc_id st = (Ok (GroupId sg), st')
    /\ events_since st st'
       = [created; refused;
          EvDescribeSecurityGroups [SECURITY_GROUP_NAME cfg] (Ok (sg :: others))].
Proof.
  intros created refused Hcreate Hrules Hdup Hlookup.
  unfold create_security_group. run. rewrite Hcreate. simpl.
  fold created. rewrite Hrules. simpl. rewrite Hdup. simpl.
  fold refused. rewrite <- app_assoc. simpl. rewrite Hlookup. simpl.
  eexists. split; [reflexivity |].
  apply events_since_app. simpl. rewrite <- app_assoc. reflexivity.
Qed.

Lemma create_security_group_late_duplicate_witness :
  exists st',
    create_security_group happy_config late_duplicate_world "vpc-1" fresh
    = (Ok (GroupId drifted_group), st')
    /\ events_since fresh st'
       = [EvCreateSecurityGroup (SECURITY_GROUP_NAME happy_config) group_description
            "vpc-1" (Ok {| new_GroupId := "sg-new" |});
          EvAuthorizeIngress "sg-new" ingress_rules (Raise duplicate_group);
          EvDescribeSecurityGroups [SECURITY_GROUP_NAME happy_config]
            (Ok [drifted_group])].
Proof.
  apply (create_security_group_late_duplicate happy_config late_duplicate_world fresh
           "vpc-1" _ {| new_GroupId := "sg-new" |} drifted_group []);
    reflexivity.
Defined.

(** X12: the handler of a duplicate does not guard its own lookup: when the
    lookup by name answers with an empty list the function raises
    [IndexError], and when the lookup itself raises, that exception leaves
    the function; in both cases no rule is authorised. *)
Theorem create_security_group_lookup_fails
    (cfg : Config) (w : World) (st : state) (vpc_id msg : string) :
  let refused :=
    EvCreateSecurityGroup (SECURITY_GROUP_NAME cfg) group_description vpc_id
      (Raise (ClientError msg)) in
  let lookup :=
    describe_security_groups w (trace st ++ [refused]) [SECURITY_GROUP_NAME cfg] in
  ec2_create_security_group w (trace st) (SECURITY_GROUP_NAME cfg) group_description vpc_id
  = Raise (ClientError msg) ->
  str_in "InvalidGroup.Duplicate" msg = true ->
  (lookup = Ok [] ->
   fst (create_security_group cfg w vpc_id st)
   = Raise (IndexError "list index out of range"))
  /\ (forall e, lookup = Raise e -> fst (create_security_group cfg w vpc_id st) = Raise e)
  /\ ingress_calls (events_since st (snd (create_security_group cfg w vpc_id st))) = [].
Proof.
  intros refused lookup Hcreate Hdup.
  unfold create_security_group. run. rewrite Hcreate. simpl. rewrite Hdup. simpl.
  fold refused. fold lookup.
  destruct lookup as [[| sg others] | e']; simpl.
  - split; [reflexivity |]. split; [discriminate |].
    erewrite events_since_app; [| simpl; rewrite <- app_assoc; reflexivity]. reflexivity.
  - split; [discriminate |]. split; [discriminate |].
    erewrite events_since_app; [| simpl; rewrite <- app_assoc; reflexivity]. reflexivity.
  - split; [discriminate |]. split; [intros e [= ->]; reflexivity |].
    erewrite events_since_app; [| simpl; rewrite <- app_assoc; reflexivity]. reflexivity.
Qed.

Lemma create_security_group_lookup_fails_witness :
  fst (create_security_group happy_config vanished_group_world "vpc-1" fresh)
  = Raise (IndexError "list index out of range")
  /\ ingress_calls
       (events_since fresh
          (snd (create_security_group happy_config vanished_group_world "vpc-1" fresh)))
     = [].
Proof.
  destruct (create_security_group_lookup_fails happy_config vanished_group_world fresh
              "vpc-1" _ eq_refl eq_refl) as (Hempty & _ & Hcalls).
  split; [apply Hempty; reflexivity | exact Hcalls].
Defined.

(** ** Image selection: sorting and the order of the answer *)

Lemma goes_before_total {A : Type} (key : A -> string) (reverse : bool) (x y : A) :
  goes_before key reverse x y = false -> goes_before key reverse y x = true.
Proof. unfold goes_before. destruct reverse; apply string_leb_false. Qed.

Lemma goes_before_trans {A : Type} (key : A -> string) (reverse : bool) (x y z : A) :
  goes_before key reverse x y = true -> goes_before key reverse y z = true ->
  goes_before key reverse x z = true.
Proof.
  unfold goes_before. destruct reverse; intros H1 H2;
    eapply string_leb_trans; eassumption.
Qed.

Lemma insert_sorted_permutation {A : Type} (key : A -> string) (reverse : bool)
    (x : A) (l : list A) :
  Permutation (insert_sorted key reverse x l) (x :: l).
Proof.
  induction l as [| y rest IH]; simpl; [reflexivity |].
  destruct (goes_before key reverse x y); [reflexivity |].
  rewrite IH. apply perm_swap.
Qed.

Lemma sorted_permutation {A : Type} (key : A -> string) (reverse : bool) (l : list A) :
  Permutation (sorted key reverse l) l.
Proof.
  induction l as [| x rest IH]; simpl; [reflexivity |].
  rewrite insert_sorted_permutation, IH. reflexivity.
Qed.

Lemma insert_sorted_ordered {A : Type} (key : A -> string) (reverse : bool)
    (x : A) (l : list A) :
  StronglySorted (fun a b => goes_before key reverse a b = true) l ->
  StronglySorted (fun a b => goes_before key reverse a b = true)
    (insert_sorted key reverse x l).
Proof.
  induction 1 as [| y rest Hrest IH Hy]; simpl.
  - repeat constructor.
  - destruct (goes_before key reverse x y) eqn:Hxy.
    + constructor; [constructor; assumption |].
      constructor; [assumption |].
      eapply Forall_impl; [eassumption |]. simpl. intros z Hz.
      eapply goes_before_trans; eassumption.
    + constructor; [assumption |].
      rewrite insert_sorted_permutation.
      constructor; [| assumption]. apply goes_before_total. assumption.
Qed.

(** X13: the list that [sorted(images, key=..., reverse=True)] produces is a
    rearrangement of the answer in which no image comes before a more recent
    one (and, with [reverse=False], before an older one). *)
Theorem sorted_rearranges_in_order {A : Type} (key : A -> string) (reverse : bool)
    (l : list A) :
  Permutation (sorted key reverse l) l
  /\ StronglySorted
       (fun a b => if reverse then String.leb (key b) (key a) = true
                   else String.leb (key a) (key b) = true)
       (sorted key reverse l).
Proof.
  split; [apply sorted_permutation |].
  assert (H : StronglySorted (fun a b => goes_before key reverse a b = true)
                (sorted key reverse l)).
  { induction l as [| x rest IH]; simpl; [constructor |].
    apply insert_sorted_ordered. assumption. }
  unfold goes_before in H. destruct reverse; exact H.
Qed.

Lemma sorted_reverse_head_max {A : Type} (key : A -> string) (l : list A) :
  l <> [] ->
  exists m tail,
    sorted key true l = m :: tail
    /\ In m l
    /\ Forall (fun x => String.leb (key x) (key m) = true) l.
Proof.
  intros Hne.
  destruct (sorted_reverse_head key l Hne) as (m & before & after & tail & Hs & Hl & Hb & Ha).
  exists m, tail. split; [assumption |]. split.
  - rewrite Hl. apply in_or_app. right. left. reflexivity.
  - rewrite Hl. apply Forall_app. split; [| constructor].
    + eapply Forall_impl; [eassumption |]. simpl. intros z. apply string_leb_false.
    + apply string_leb_cases. left. reflexivity.
    + assumption.
Qed.

Lemma NoDup_map_injective {A B : Type} (f : A -> B) (l : list A) (x y : A) :
  List.NoDup (map f l) -> In x l -> In y l -> f x = f y -> x = y.
Proof.
  induction l as [| z rest IH]; simpl; [contradiction |].
  intros Hnd Hx Hy Hf. inversion Hnd as [| ? ? Hz Hrest]; subst.
  destruct Hx as [-> | Hx], Hy as [-> | Hy]; auto.
  - exfalso. apply Hz. rewrite Hf. apply in_map. assumption.
  - exfalso. apply Hz. rewrite <- Hf. apply in_map. assumption.
Qed.

Lemma get_latest_ami_result (cfg : Config) (w : World) (st : state) (images : list Image) :
  describe_images w (trace st) ["amazon"] (image_filters cfg) = Ok images ->
  fst (get_latest_ami cfg w st)
  = match sorted CreationDate true images with
    | image :: _ => Ok (ImageId image)
    | [] => Raise (IndexError "list index out of range")
    end.
Proof.
  intros H. unfold get_latest_ami. run. rewrite H. simpl.
  destruct (sorted CreationDate true images); reflexivity.
Qed.

(** X14: when the creation dates of the answer are pairwise different, the
    result of [get_latest_ami] does not depend on the order in which the
    provider lists the images: two answers that are rearrangements of one
    another give the same result. *)
Theorem get_latest_ami_order_independent
    (cfg cfg' : Config) (w w' : World) (st st' : state) (images images' : list Image) :
  describe_images w (trace st) ["amazon"] (image_filters cfg) = Ok images ->
  describe_images w' (trace st') ["amazon"] (image_filters cfg') = Ok images' ->
  Permutation images images' ->
  List.NoDup (map CreationDate images) ->
  fst (get_latest_ami cfg w st) = fst (get_latest_ami cfg' w' st').
Proof.
  intros H H' Hperm Hnd.
  rewrite (get_latest_ami_result _ _ _ _ H), (get_latest_ami_result _ _ _ _ H').
  destruct images as [| i0 rest].
  - apply Permutation_nil in Hperm. subst. reflexivity.
  - assert (Hne' : images' <> []).
    { intros ->. symmetry in Hperm. apply Permutation_nil in Hperm. discriminate. }
    destruct (sorted_reverse_head_max CreationDate (i0 :: rest)) as (m & t & Hs & Hin & Hmax);
      [discriminate |].
    destruct (sorted_reverse_head_max CreationDate images' Hne')
      as (m' & t' & Hs' & Hin' & Hmax').
    rewrite Hs, Hs'.
    assert (Hm' : In m' (i0 :: rest)) by (eapply Permutation_in; [symmetry |]; eassumption).
    assert (Hm : In m images') by (eapply Permutation_in; eassumption).
    rewrite List.Forall_forall in Hmax, Hmax'.
    assert (E : m = m').
    { apply (NoDup_map_injective CreationDate (i0 :: rest)); try assumption.
      apply String.leb_antisym; auto. }
    rewrite E. reflexivity.
Qed.

Lemma get_latest_ami_order_independent_witness :
  fst (get_latest_ami happy_config happy_world fresh)
  = fst (get_latest_ami happy_config shuffled_world fresh).
Proof.
  apply (get_latest_ami_order_independent happy_config happy_config happy_world
           shuffled_world fresh fresh three_images shuffled_images).
  - reflexivity.
  - reflexivity.
  - unfold three_images, shuffled_images.
    eapply perm_trans; [apply perm_skip; apply perm_swap |].
    apply perm_swap.
  - repeat constructor; simpl; intuition discriminate.
Defined.

(** ** Launching the fleet: the shape of a run *)

Lemma emits_then {A B : Type} (P Q : event -> Prop) (m : M A) (k : A -> M B) :
  emits P m -> (forall a, emits Q (k a)) ->
  forall st, exists l r,
    trace (snd (bind m k st)) = trace st ++ l ++ r /\ Forall P l /\ Forall Q r.
Proof.
  intros Hm Hk st. unfold bind.
  destruct (Hm st) as (l & E & F). destruct (m st) as [[a | e] st1]; simpl in *.
  - destruct (Hk a st1) as (r & E' & F'). exists l, r.
    rewrite E', E, app_assoc. auto.
  - exists l, []. rewrite app_nil_r. auto.
Qed.

Lemma launch_instances_journal_shape_aux
    (cfg : Config) (w : World) (ami_id sg_id : string) (st : state) :
  exists waits reloads,
    trace (snd (launch_instances cfg w ami_id sg_id st))
    = trace st
      ++ EvCreateInstances (run_request cfg ami_id sg_id)
           (create_instances w (trace st) (run_request cfg ami_id sg_id))
         :: waits ++ reloads
    /\ Forall (fun ev => is_wait_event ev = true) waits
    /\ Forall (fun ev => is_reload_event ev = true) reloads.
Proof.
  unfold launch_instances.
  rewrite (bind_ok _ _ _ _ _ (print_run _ _)).
  unfold bind at 1, call at 1. simpl.
  destruct (create_instances w (trace st) (run_request cfg ami_id sg_id))
    as [instances | e]; simpl.
  - rewrite (bind_ok _ _ _ _ _ (print_run _ _)).
    match goal with
    | |- context [snd (bind ?m ?k ?s)] =>
        destruct (emits_then (fun ev => is_wait_event ev = true)
                    (fun ev => is_reload_event ev = true) m k) with (st := s)
          as (waits & reloads & E & Fw & Fr)
    end.
    + unfold instance_wait_until_running. emits_steps.
    + intros _. unfold instance_reload. emits_steps.
    + exists waits, reloads. split; [| auto].
      rewrite E. simpl. rewrite <- app_assoc. reflexivity.
  - exists [], []. split; [| auto]. reflexivity.
Qed.

(** X15: the journal of every run of [launch_instances] is the batch
    creation, then waits only, then reloads only: no instance is reloaded
    before the waiting is over, and nothing else is called. *)
Theorem launch_instances_journal_shape
    (cfg : Config) (w : World) (ami_id sg_id : string) (st : state) :
  exists waits reloads,
    events_since st (snd (launch_instances cfg w ami_id sg_id st))
    = EvCreateInstances (run_request cfg ami_id sg_id)
        (create_instances w (trace st) (run_request cfg ami_id sg_id))
      :: waits ++ reloads
    /\ Forall (fun ev => is_wait_event ev = true) waits
    /\ Forall (fun ev => is_reload_event ev = true) reloads.
Proof.
  destruct (launch_instances_journal_shape_aux cfg w ami_id sg_id st)
    as (waits & reloads & E & Fw & Fr).
  exists waits, reloads. split; [| auto]. apply events_since_app. assumption.
Qed.

Lemma for_each_wait_inv (w : World) (instances : list Instance) (st st' : state) :
  for_each instances (instance_wait_until_running w) st = (Ok tt, st') ->
  st' = journalled st (wait_events instances).
Proof.
  revert st. induction instances as [| i rest IH]; intros st; simpl.
  - unfold ret. intros [= <-]. rewrite journalled_nil. reflexivity.
  - unfold bind, instance_wait_until_running at 1, call. simpl.
    destruct (wait_until_running w (trace st) (instance_id i)) as [[] | e];
      [| discriminate].
    intros H. apply IH in H. rewrite H. unfold journalled. simpl.
    rewrite <- app_assoc. reflexivity.
Qed.

Lemma comprehension_reload_inv (w : World) (instances reloaded : list Instance)
    (st st' : state) :
  comprehension instances (instance_reload w) st = (Ok reloaded, st') ->
  st' = journalled st (reload_events instances (map public_ip_address reloaded))
  /\ length reloaded = length instances.
Proof.
  revert st reloaded. induction instances as [| i rest IH]; intros st reloaded; simpl.
  - unfold ret. intros [= <- <-]. rewrite journalled_nil. auto.
  - unfold bind at 1, instance_reload at 1, bind at 1, call, ret. simpl.
    destruct (reload w (trace st) (instance_id i)) as [ip | e]; [| discriminate].
    unfold bind.
    match goal with
    | |- context [comprehension rest _ ?s] =>
        destruct (comprehension rest (instance_reload w) s) as [[ys | e] s1] eqn:E
    end; [| discriminate].
    intros [= <- <-]. apply IH in E. destruct E as [-> Hlen]. simpl. split.
    + unfold journalled. simpl. rewrite <- app_assoc. reflexivity.
    + rewrite Hlen. reflexivity.
Qed.

(** X16: whenever [launch_instances] returns a list of addresses, the batch
    creation had answered with a list of instances, every one of them was
    waited for and then reloaded successfully, in the order of that list,
    and the result holds exactly the addresses the reloads reported, one per
    instance of the provider's list (whatever [INSTANCE_COUNT] is). *)
Theorem launch_instances_ok_inversion
    (cfg : Config) (w : World) (ami_id sg_id : string) (st st' : state)
    (ips : list (option string)) :
  launch_instances cfg w ami_id sg_id st = (Ok ips, st') ->
  exists instances,
    create_instances w (trace st) (run_request cfg ami_id sg_id) = Ok instances
    /\ length ips = length instances
    /\ events_since st st'
       = EvCreateInstances (run_request cfg ami_id sg_id) (Ok instances)
         :: wait_events instances ++ reload_events instances ips.
Proof.
  unfold launch_instances.
  rewrite (bind_ok _ _ _ _ _ (print_run _ _)).
  unfold bind at 1, call at 1. simpl.
  destruct (create_instances w (trace st) (run_request cfg ami_id sg_id))
    as [instances | e]; [| discriminate].
  rewrite (bind_ok _ _ _ _ _ (print_run _ _)).
  unfold bind at 1.
  match goal with
  | |- context [for_each instances _ ?s] =>
      destruct (for_each instances (instance_wait_until_running w) s)
        as [[[] | e] s1] eqn:Ewait
  end; [| discriminate].
  apply for_each_wait_inv in Ewait.
  unfold bind at 1.
  destruct (comprehension instances (instance_reload w) s1) as [[reloaded | e] s2] eqn:Ereload;
    [| discriminate].
  apply comprehension_reload_inv in Ereload. destruct Ereload as [Es2 Hlen].
  cbv zeta.
  rewrite (bind_ok _ _ _ _ _ (print_run _ _)).
  rewrite (bind_ok _ _ _ _ _ (for_each_print _ _ _)).
  unfold ret. intros [= <- <-].
  exists instances. split; [reflexivity |]. split.
  - rewrite length_map. assumption.
  - apply events_since_app. subst s2 s1. simpl. rewrite <- !app_assoc. reflexivity.
Qed.

Lemma launch_instances_ok_inversion_witness :
  exists instances,
    create_instances happy_world (trace fresh) (run_request happy_config "ami-jun" "sg-new")
    = Ok instances
    /\ length [Some "1.2.3.4"; Some "5.6.7.8"; @None string] = length instances
    /\ events_since fresh
         (snd (launch_instances happy_config happy_world "ami-jun" "sg-new" fresh))
       = EvCreateInstances (run_request happy_config "ami-jun" "sg-new") (Ok instances)
         :: wait_events instances
            ++ reload_events instances [Some "1.2.3.4"; Some "5.6.7.8"; None].
Proof.
  apply (launch_instances_ok_inversion happy_config happy_world "ami-jun" "sg-new" fresh).
  vm_compute. reflexivity.
Defined.

Lemma for_each_wait_fails (w : World) (before after : list Instance) (i : Instance)
    (e : exn) :
  (forall h j, In j before -> wait_until_running w h (instance_id j) = Ok tt) ->
  forall st,
    wait_until_running w (trace st ++ wait_events before) (instance_id i) = Raise e ->
    for_each (before ++ i :: after) (instance_wait_until_running w) st
    = (Raise e, journalled st (wait_events before
                                 ++ [EvWaitUntilRunning (instance_id i) (Raise e)])).
Proof.
  induction before as [| j rest IH]; intros Hok st Hfail; simpl in *.
  - rewrite app_nil_r in Hfail.
    unfold bind, instance_wait_until_running at 1, call. simpl. rewrite Hfail.
    reflexivity.
  - unfold bind, instance_wait_until_running at 1, call. simpl.
    rewrite (Hok _ j) by (left; reflexivity).
    rewrite IH.
    + unfold journalled. simpl. rewrite <- app_assoc. reflexivity.
    + intros h k Hk. apply Hok. right. assumption.
    + simpl. rewrite <- app_assoc. exact Hfail.
Qed.

(** X17: when the wait for one instance raises after the waits for the
    instances before it returned, [launch_instances] raises that exception
    at once: the later instances are not waited for, no instance is
    reloaded, and no address is returned although the batch is created. *)
Theorem launch_instances_wait_fails
    (cfg : Config) (w : World) (ami_id sg_id : string) (st : state)
    (before after : list Instance) (i : Instance) (e : exn) :
  let created :=
    EvCreateInstances (run_request cfg ami_id sg_id) (Ok (before ++ i :: after)) in
  create_instances w (trace st) (run_request cfg ami_id sg_id) = Ok (before ++ i :: after) ->
  (forall h j, In j before -> wait_until_running w h (instance_id j) = Ok tt) ->
  wait_until_running w (trace st ++ created :: wait_events before) (instance_id i)
  = Raise e ->
  exists st',
    launch_instances cfg w ami_id sg_id st = (Raise e, st')
    /\ events_since st st'
       = created :: wait_events before ++ [EvWaitUntilRunning (instance_id i) (Raise e)].
Proof.
  intros created Hcreate Hok Hfail.
  unfold launch_instances.
  rewrite (bind_ok _ _ _ _ _ (print_run _ _)).
  unfold bind at 1, call at 1. simpl. rewrite Hcreate. fold created.
  rewrite (bind_ok _ _ _ _ _ (print_run _ _)).
  erewrite bind_raise.
  2:{ apply for_each_wait_fails; [exact Hok |]. simpl.
      rewrite <- app_assoc. exact Hfail. }
  eexists. split; [reflexivity |].
  apply events_since_app. simpl. rewrite <- app_assoc. reflexivity.
Qed.

Lemma launch_instances_wait_fails_witness :
  exists st',
    launch_instances happy_config (with_wait happy_world second_never_runs)
      "ami-jun" "sg-new" fresh
    = (Raise waiter_failed, st')
    /\ events_since fresh st'
       = EvCreateInstances (run_request happy_config "ami-jun" "sg-new")
           (Ok ([{| instance_id := "i-01"; public_ip_address := None |}]
                ++ {| instance_id := "i-02"; public_ip_address := None |}
                   :: [{| instance_id := "i-03"; public_ip_address := None |}]))
         :: wait_events [{| instance_id := "i-01"; public_ip_address := None |}]
            ++ [EvWaitUntilRunning "i-02" (Raise waiter_failed)].
Proof.
  apply (launch_instances_wait_fails happy_config (with_wait happy_world second_never_runs)
           "ami-jun" "sg-new" fresh
           [{| instance_id := "i-01"; public_ip_address := None |}]
           [{| instance_id := "i-03"; public_ip_address := None |}]
           {| instance_id := "i-02"; public_ip_address := None |} waiter_failed).
  - reflexivity.
  - intros h j [<- | []]. reflexivity.
  - reflexivity.
Defined.

(** ** The orchestration sequence: every run *)

Lemma main_failure_is_first_failure_witness :
  exists s,
    first_failure happy_config forbidden_world fresh
      (Exception ("GitHub API error: " +:+ str_of_int 403 +:+ " - " +:+ "Bad credentials"))
      (snd (main happy_config forbidden_world fresh)) s.
Proof.
  apply (main_failure_is_first_failure happy_config forbidden_world fresh).
  vm_compute. reflexivity.
Defined.

Lemma stage_ordered_same (s : Stage) (evs : list event) :
  Forall (fun ev => stage_of ev = s) evs -> stage_ordered evs.
Proof.
  induction 1 as [| ev evs Hev Hevs IH]; constructor; [assumption |].
  eapply Forall_impl; [eassumption |]. simpl. intros ev' ->. rewrite Hev. lia.
Qed.

Lemma stage_ordered_app (mid : nat) (l k : list event) :
  Forall (fun ev => (stage_index (stage_of ev) <= mid)%nat) l ->
  Forall (fun ev => (mid <= stage_index (stage_of ev))%nat) k ->
  stage_ordered l -> stage_ordered k -> stage_ordered (l ++ k).
Proof.
  intros Hl Hk Sl Sk. induction Sl as [| x l' Sl' IH Hx]; simpl; [assumption |].
  inversion Hl as [| ? ? Hx_mid Hl']; subst.
  constructor; [apply IH; assumption |].
  apply Forall_app. split; [assumption |].
  eapply Forall_impl; [exact Hk |]. simpl. intros y Hy. lia.
Qed.

Lemma in_stages_of_emits {A : Type} (s : Stage) (m : M A) :
  emits (fun ev => stage_of ev = s) m -> in_stages (stage_index s) (stage_index s) m.
Proof.
  intros Hm st. destruct (Hm st) as (evs & E & F). exists evs.
  split; [assumption |]. split; [| eapply stage_ordered_same; eassumption].
  eapply Forall_impl; [eassumption |]. simpl. intros ev ->. lia.
Qed.

Lemma in_stages_silent {A : Type} (lo hi : nat) (m : M A) :
  emits (fun _ => False) m -> in_stages lo hi m.
Proof.
  intros Hm st. destruct (Hm st) as (evs & E & F). exists evs.
  destruct evs as [| ev evs]; [| inversion F; contradiction].
  split; [assumption |]. split; constructor.
Qed.

Lemma in_stages_bind {A B : Type} (lo mid hi : nat) (m : M A) (k : A -> M B) :
  (lo <= mid)%nat -> (mid <= hi)%nat ->
  in_stages lo mid m -> (forall a, in_stages mid hi (k a)) ->
  in_stages lo hi (bind m k).
Proof.
  intros Hlo Hhi Hm Hk st. unfold bind.
  destruct (Hm st) as (l & E & F & S). destruct (m st) as [[a | e] st1]; simpl in *.
  - destruct (Hk a st1) as (r & E' & F' & S'). exists (l ++ r).
    rewrite E', E, app_assoc. split; [reflexivity |]. split.
    + apply Forall_app. split; (eapply Forall_impl; [eassumption |]); simpl; intros; lia.
    + apply (stage_ordered_app mid); try assumption;
        (eapply Forall_impl; [eassumption |]); simpl; intros; lia.
  - exists l. split; [assumption |]. split; [| assumption].
    eapply Forall_impl; [eassumption |]. simpl. intros. lia.
Qed.

Lemma in_stages_widen {A : Type} (lo lo' hi hi' : nat) (m : M A) :
  (lo' <= lo)%nat -> (hi <= hi')%nat -> in_stages lo hi m -> in_stages lo' hi' m.
Proof.
  intros Hlo Hhi Hm st. destruct (Hm st) as (evs & E & F & S). exists evs.
  split; [assumption |]. split; [| assumption].
  eapply Forall_impl; [eassumption |]. simpl. intros. lia.
Qed.

Lemma main_in_stages (cfg : Config) (w : World) : in_stages 0 5 (main cfg w).
Proof.
  unfold main.
  apply (in_stages_bind 0 0 5); [lia | lia | apply in_stages_silent, emits_print |].
  intros _.
  apply (in_stages_bind 0 1 5); [lia | lia | |].
  { apply (in_stages_widen 0 0 0 1); [lia | lia |].
    apply (in_stages_of_emits RepositoryStage), create_github_repo_emits. }
  intros repo_url.
  apply (in_stages_bind 1 2 5); [lia | lia | |].
  { apply (in_stages_widen 1 1 1 2); [lia | lia |].
    apply (in_stages_of_emits KeyPairStage), create_key_pair_emits. }
  intros _.
  apply (in_stages_bind 2 3 5); [lia | lia | |].
  { apply (in_stages_widen 2 2 2 3); [lia | lia |].
    apply (in_stages_of_emits NetworkStage), get_default_vpc_id_emits. }
  intros vpc_id.
  apply (in_stages_bind 3 4 5); [lia | lia | |].
  { apply (in_stages_widen 3 3 3 4); [lia | lia |].
    apply (in_stages_of_emits SecurityGroupStage), create_security_group_emits. }
  intros sg_id.
  apply (in_stages_bind 4 5 5); [lia | lia | |].
  { apply (in_stages_widen 4 4 4 5); [lia | lia |].
    apply (in_stages_of_emits ImageStage), get_latest_ami_emits. }
  intros ami_id.
  apply (in_stages_bind 5 5 5); [lia | lia | |].
  { apply (in_stages_of_emits FleetStage), launch_instances_emits. }
  intros ips. apply in_stages_silent. emits_steps.
Qed.

(** X19: in every run of the script, however far it gets, the calls appear
    in the journal in the order of the stages (repository, key pair and its
    file, default VPC, security group, image, fleet): once a call of a later
    stage is made, no call of an earlier stage follows. *)
Theorem run_script_calls_in_stage_order (cfg : Config) (w : World) (st : state) :
  stage_ordered (events_since st (snd (run_script cfg w st))).
Proof.
  destruct (main_in_stages cfg w st) as (evs & E & _ & S).
  unfold run_script, dunder_main, try_except.
  destruct (main cfg w st) as [[[] | e] st1]; simpl in *.
  - rewrite (events_since_app _ _ _ E). assumption.
  - destruct (is_Exception e); simpl;
      (erewrite events_since_app; [eassumption | simpl; exact E]).
Qed.

(** ** The exit status *)

Section RaisesOnly.
Context (P : exn -> Prop).










End RaisesOnly.










Lemma launch_instances_create_calls
    (cfg : Config) (w : World) (ami_id sg_id : string) (st st' : state)
    (r : result (list (option string))) :
  launch_instances cfg w ami_id sg_id st = (r, st') ->
  exists evs,
    trace st' = trace st ++ evs
    /\ create_calls evs = [(INSTANCE_COUNT cfg, INSTANCE_COUNT cfg)].
Proof.
  intros Hrun.
  destruct (launch_instances_journal_shape_aux cfg w ami_id sg_id st)
    as (waits & reloads & E & Fw & Fr).
  rewrite Hrun in E. simpl in E. eexists. split; [exact E |].
  change (?x :: waits ++ reloads) with ([x] ++ waits ++ reloads).
  rewrite !create_calls_app.
  rewrite (create_calls_none waits), (create_calls_none reloads); [reflexivity | |].
  - eapply Forall_impl; [exact Fr |]. simpl. intros ev. destruct ev; simpl; congruence.
  - eapply Forall_impl; [exact Fw |]. simpl. intros ev. destruct ev; simpl; congruence.
Qed.

Lemma within_create_calls (bound : nat) (st st' : state) :
  (bound < stage_index FleetStage)%nat -> within bound st st' ->
  exists evs, trace st' = trace st ++ evs /\ create_calls evs = [].
Proof.
  intros Hb Hw. pose proof (within_no_create bound st st' Hb Hw) as Hnone.
  destruct Hw as (evs & E & _). rewrite (events_since_app _ _ _ E) in Hnone.
  exists evs. auto.
Qed.

Ltac no_batch_so_far st :=
  match goal with
  | |- exists evs, trace ?s' = _ /\ _ =>
      let W := fresh "W" in
      assert (W : within 4 st s')
        by (within_chain; try stage_emits; try (simpl; lia));
      let evs := fresh "evs" in
      let E := fresh "E" in
      let C := fresh "C" in
      destruct (within_create_calls 4 st s') as (evs & E & C);
      [simpl; lia | assumption |];
      exists evs; auto
  end.

Lemma main_create_calls (cfg : Config) (w : World) (st : state) :
  exists evs,
    trace (snd (main cfg w st)) = trace st ++ evs
    /\ (create_calls evs = []
        \/ create_calls evs = [(INSTANCE_COUNT cfg, INSTANCE_COUNT cfg)]).
Proof.
  unfold main.
  rewrite (bind_ok _ _ _ _ _ (print_run _ _)). fold (started st).
  destruct (create_github_repo cfg w (started st)) as [[repo_url | e1] s1] eqn:E1.
  2:{ rewrite (bind_raise _ _ _ _ _ E1). simpl. no_batch_so_far st. }
  rewrite (bind_ok _ _ _ _ _ E1).
  destruct (create_key_pair cfg w s1) as [[[] | e2] s2] eqn:E2.
  2:{ rewrite (bind_raise _ _ _ _ _ E2). simpl. no_batch_so_far st. }
  rewrite (bind_ok _ _ _ _ _ E2).
  destruct (get_default_vpc_id w s2) as [[vpc_id | e3] s3] eqn:E3.
  2:{ rewrite (bind_raise _ _ _ _ _ E3). simpl. no_batch_so_far st. }
  rewrite (bind_ok _ _ _ _ _ E3).
  destruct (create_security_group cfg w vpc_id s3) as [[sg_id | e4] s4] eqn:E4.
  2:{ rewrite (bind_raise _ _ _ _ _ E4). simpl. no_batch_so_far st. }
  rewrite (bind_ok _ _ _ _ _ E4).
  destruct (get_latest_ami cfg w s4) as [[ami_id | e5] s5] eqn:E5.
  2:{ rewrite (bind_raise _ _ _ _ _ E5). simpl. no_batch_so_far st. }
  rewrite (bind_ok _ _ _ _ _ E5).
  destruct (launch_instances cfg w ami_id sg_id s5) as [r6 s6] eqn:E6.
  destruct (launch_instances_create_calls _ _ _ _ _ _ _ E6) as (evs6 & E6' & C6).
  assert (W : within 4 st s5)
    by (clear E6; within_chain; try stage_emits; try (simpl; lia)).
  destruct (within_create_calls 4 st s5) as (evs5 & E5' & C5);
    [simpl; lia | assumption |].
  exists (evs5 ++ evs6). split.
  - destruct r6 as [ips | e6].
    + rewrite (bind_ok _ _ _ _ _ E6).
      repeat rewrite (bind_ok _ _ _ _ _ (print_run _ _)).
      rewrite (bind_ok _ _ _ _ _ (for_each_print _ _ _)).
      repeat rewrite (bind_ok _ _ _ _ _ (print_run _ _)).
      rewrite print_run. simpl. rewrite E6', E5', app_assoc. reflexivity.
    + rewrite (bind_raise _ _ _ _ _ E6). simpl. rewrite E6', E5', app_assoc. reflexivity.
  - right. rewrite create_calls_app, C5, C6. reflexivity.
Qed.

(** X21: a run of the whole script issues at most one batch-creation call,
    and that call, if any, asks for [MinCount = MaxCount = INSTANCE_COUNT]:
    the launch is never repeated and never retried with a smaller fleet. *)
Theorem run_script_at_most_one_batch (cfg : Config) (w : World) (st : state) :
  let calls := create_calls (events_since st (snd (run_script cfg w st))) in
  calls = [] \/ calls = [(INSTANCE_COUNT cfg, INSTANCE_COUNT cfg)].
Proof.
  destruct (main_create_calls cfg w st) as (evs & E & C).
  assert (Hsame : trace (snd (run_script cfg w st)) = trace (snd (main cfg w st))).
  { unfold run_script, dunder_main, try_except.
    destruct (main cfg w st) as [[[] | e] st1]; simpl; [reflexivity |].
    destruct (is_Exception e); reflexivity. }
  simpl. rewrite (events_since_app _ _ evs); [exact C |].
  rewrite Hsame. exact E.
Qed.

(** ** The duplicate test *)

Lemma prefix_spec (a b : string) :
  String.prefix a b = true <-> exists rest, b = a +:+ rest.
Proof.
  revert b. induction a as [| x a IH]; intros [| y b]; simpl.
  - split; [intros _; exists ""; reflexivity | reflexivity].
  - split; [intros _; exists (String y b); reflexivity | reflexivity].
  - split; [discriminate | intros [rest H]; discriminate].
  - destruct (ascii_dec x y) as [-> | Hne].
    + rewrite IH. split; intros [rest H]; exists rest.
      * rewrite H. reflexivity.
      * injection H as H. assumption.
    + split; [discriminate |]. intros [rest H]. injection H as Hxy _. congruence.
Qed.

Lemma str_in_unfold (needle hay : string) :
  str_in needle hay
  = if String.prefix needle hay then true
    else match hay with
         | EmptyString => false
         | String _ rest => str_in needle rest
         end.
Proof. destruct hay; reflexivity. Qed.

(** X22: the test [marker in str(e)] of the two handlers succeeds exactly
    when the marker occurs somewhere in the message as a contiguous
    substring. *)
Theorem str_in_spec (needle hay : string) :
  str_in needle hay = true <-> exists before after, hay = before +:+ needle +:+ after.
Proof.
  split.
  - induction hay as [| c rest IH]; rewrite str_in_unfold;
      destruct (String.prefix needle _) eqn:Hp.
    + intros _. apply prefix_spec in Hp. destruct Hp as [after H].
      exists "", after. assumption.
    + discriminate.
    + intros _. apply prefix_spec in Hp. destruct Hp as [after H].
      exists "", after. assumption.
    + intros H. destruct (IH H) as (before & after & E).
      exists (String c before), after. simpl. rewrite E. reflexivity.
  - intros (before & after & E). subst hay.
    induction before as [| c before IH]; rewrite str_in_unfold.
    + assert (Hp : String.prefix needle ("" +:+ needle +:+ after) = true).
      { apply prefix_spec. exists after. reflexivity. }
      rewrite Hp. reflexivity.
    + destruct (String.prefix needle _); [reflexivity |]. simpl. exact IH.
Qed.

(** ** A run in which every stage succeeds *)

(** X23: when the six stages return, [main] returns, having handed the VPC id
    to the group creation and the group and image ids to the launch, and ends
    by printing the summary: the URL the repository stage returned, the
    configured [INSTANCE_COUNT] (not the number of addresses), one line per
    address with a missing one shown as [None], and the clean-up hint. *)
Theorem main_reports_summary
    (cfg : Config) (w : World) (st : state) (repo_url vpc_id sg_id ami_id : string)
    (ips : list (option string)) (s1 s2 s3 s4 s5 s6 : state) :
  create_github_repo cfg w (started st) = (Ok repo_url, s1) ->
  create_key_pair cfg w s1 = (Ok tt, s2) ->
  get_default_vpc_id w s2 = (Ok vpc_id, s3) ->
  create_security_group cfg w vpc_id s3 = (Ok sg_id, s4) ->
  get_latest_ami cfg w s4 = (Ok ami_id, s5) ->
  launch_instances cfg w ami_id sg_id s5 = (Ok ips, s6) ->
  main cfg w st
  = (Ok tt,
     printed s6
       ([newline +:+ "🎯 Deployment Summary:";
         "GitHub Repo: " +:+ repo_url;
         "Instance Count: " +:+ str_of_int (INSTANCE_COUNT cfg);
         "Public IPs:"]
        ++ map (fun ip => "  - " +:+ str_of_opt ip) ips
        ++ [newline +:+ "🧹 To clean up later, run:";
            "  aws ec2 describe-instances --filters Name=tag:Name,Values=PythonDeployedEC2";
            "  aws ec2 terminate-instances --instance-ids <ids>"])).
Proof.
  intros E1 E2 E3 E4 E5 E6. unfold main.
  rewrite (bind_ok _ _ _ _ _ (print_run _ _)). fold (started st).
  rewrite (bind_ok _ _ _ _ _ E1), (bind_ok _ _ _ _ _ E2), (bind_ok _ _ _ _ _ E3),
    (bind_ok _ _ _ _ _ E4), (bind_ok _ _ _ _ _ E5), (bind_ok _ _ _ _ _ E6).
  repeat rewrite (bind_ok _ _ _ _ _ (print_run _ _)).
  rewrite (bind_ok _ _ _ _ _ (for_each_print _ _ _)).
  repeat rewrite (bind_ok _ _ _ _ _ (print_run _ _)).
  rewrite print_run, !printed_printed. reflexivity.
Qed.

Lemma main_reports_summary_witness :
  main happy_config happy_world fresh
  = (Ok tt,
     printed (snd (launch_instances happy_config happy_world "ami-jun" "sg-new"
                     (snd (get_latest_ami happy_config happy_world
                        (snd (create_security_group happy_config happy_world "vpc-1"
                           (snd (get_default_vpc_id happy_world
                              (snd (create_key_pair happy_config happy_world
                                 (snd (create_github_repo happy_config happy_world
                                         (started fresh)))))))))))))
       ([newline +:+ "🎯 Deployment Summary:";
         "GitHub Repo: " +:+ "https://github.com/octo/aws-ec2-50";
         "Instance Count: " +:+ str_of_int (INSTANCE_COUNT happy_config);
         "Public IPs:"]
        ++ map (fun ip => "  - " +:+ str_of_opt ip) [Some "1.2.3.4"; Some "5.6.7.8"; None]
        ++ [newline +:+ "🧹 To clean up later, run:";
            "  aws ec2 describe-instances --filters Name=tag:Name,Values=PythonDeployedEC2";
            "  aws ec2 terminate-instances --instance-ids <ids>"])).
Proof.
  apply (main_reports_summary happy_config happy_world fresh
           "https://github.com/octo/aws-ec2-50" "vpc-1" "sg-new" "ami-jun"
           [Some "1.2.3.4"; Some "5.6.7.8"; None]
           (snd (create_github_repo happy_config happy_world (started fresh)))
           (snd (create_key_pair happy_config happy_world
                   (snd (create_github_repo happy_config happy_world (started fresh)))))
           (snd (get_default_vpc_id happy_world
              (snd (create_key_pair happy_config happy_world
                 (snd (create_github_repo happy_config happy_world (started fresh)))))))
           (snd (create_security_group happy_config happy_world "vpc-1"
              (snd (get_default_vpc_id happy_world
                 (snd (create_key_pair happy_config happy_world
                    (snd (create_github_repo happy_config happy_world
                            (started fresh)))))))))
           (snd (get_latest_ami happy_config happy_world
              (snd (create_security_group happy_config happy_world "vpc-1"
                 (snd (get_default_vpc_id happy_world
                    (snd (create_key_pair happy_config happy_world
                       (snd (create_github_repo happy_config happy_world
                               (started fresh)))))))))))
           _);
    vm_compute; reflexivity.
Defined.
